(** * Real-time chat server: presence, typing indicators and AI response streaming

    A shallow embedding of the Socket.IO part of the server (the file that
    creates [io], the maps [activeUsers], [userSockets], [typingUsers], the
    socket handlers and [streamAIResponse]), of the chat route
    [POST /conversations/:id/messages], of [Conversation.addMessage],
    [User.incrementUsage] and the [updateUsage] middleware.

    Conventions of the embedding.
    - Ids (socket ids, user ids, conversation ids, room names) are strings.
    - A JS [Map] is a [gmap], a JS [Set] a [gset].  The sets stored in
      [typingUsers] are mutated in place by the source; the only alias of
      such a set is the map entry itself, so an in-place update is an insert
      at the same key.
    - A handler is a function from the state it reads to the state it leaves
      and the list of calls it makes on the outside world, in program order
      ([Effect]).  Awaited promises are answered by an environment record
      ([Outcome] fields): what the database, the provider and the clock
      return is an input of the model. *)

From stdpp Require Import gmap strings list fin_maps fin_sets.
From Stdlib Require Import ZArith Lia.

Set Warnings "-register-all,-clear-no-such-hyp".

Local Open Scope string_scope.
Local Open Scope list_scope.
Local Open Scope Z_scope.

(** ** JavaScript values used as event payloads *)

Inductive JsVal : Type :=
| JUndefined
| JStr (s : string)
| JNum (n : Z)
| JBool (b : bool)
| JDate (t : Z)
| JObj (fields : list (string * JsVal)).

(** [obj.key]: the first binding of [key] in an object literal, [None]
    (JS [undefined]) when the object has no such property. *)
Fixpoint assoc_field (key : string) (fields : list (string * JsVal)) : option JsVal :=
  match fields with
  | [] => None
  | (k, v) :: rest => if String.eqb k key then Some v else assoc_field key rest
  end.

Definition get_field (key : string) (v : JsVal) : option JsVal :=
  match v with
  | JObj fields => assoc_field key fields
  | _ => None
  end.

Definition as_string (v : option JsVal) : string :=
  match v with
  | Some (JStr s) => s
  | _ => ""
  end.

(** ** Sockets and the calls a handler makes *)

(** The properties of a [socket] the handlers read: [socket.id], and
    [socket.userId], [socket.user.username] set by the authentication
    middleware. *)
Record Socket : Type := mkSocket {
  socket_id : string;
  userId : string;
  username : string
}.

(** A message of a conversation as [addMessage] builds it. *)
Record Message : Type := mkMessage {
  role : string;
  content : string;
  tokens : Z;
  model : string;
  processingTime : option Z;
  error : option string
}.

Record Usage : Type := mkUsage {
  messagesThisMonth : Z;
  usage_totalMessages : Z;
  usage_totalTokens : Z
}.

Record User : Type := mkUser {
  user_id : string;
  usage : Usage
}.

Inductive Effect : Type :=
| SocketEmit (sid : string) (event : string) (payload : JsVal)
    (* socket.emit(event, payload) *)
| SocketToEmit (sid : string) (room : string) (event : string) (payload : JsVal)
    (* socket.to(room).emit(event, payload): the room without the sender *)
| IoToEmit (room : string) (event : string) (payload : JsVal)
    (* io.to(room).emit(event, payload): the whole room *)
| Persisted (conversationId : string) (m : Message)
    (* conversation.addMessage(...) whose save() resolved *)
| ProviderCall (model : string) (messages : list (string * string))
    (* openai.chat.completions.create({model, messages, stream: true}) *)
| UsageSaved (u : User)
    (* user.save() resolved, with the document it saved *)
| ConsoleError (label : string)
| LogWarn (label : string)
| LogInfo (label : string)
| Respond (status : Z) (success : bool).
    (* res.status(status).json({success, ...}) *)

Definition conversation_room (conversationId : string) : string :=
  "conversation:" +:+ conversationId.

Definition user_room (uid : string) : string := "user:" +:+ uid.

(** Room membership of the Socket.IO adapter: room name to socket ids. *)
Definition members (rooms : gmap string (gset string)) (room : string) : gset string :=
  default ∅ (rooms !! room).

(** What socket [sid] receives from one call, given the room membership at
    the time of the call. *)
Definition receives (rooms : gmap string (gset string)) (sid : string) (e : Effect)
  : option (string * JsVal) :=
  match e with
  | SocketEmit s ev p => if decide (s = sid) then Some (ev, p) else None
  | SocketToEmit s room ev p =>
      if decide (sid ∈ members rooms room ∧ sid ≠ s) then Some (ev, p) else None
  | IoToEmit room ev p =>
      if decide (sid ∈ members rooms room) then Some (ev, p) else None
  | _ => None
  end.

(** The events socket [sid] observes from a trace of calls, in order. *)
Definition observed (rooms : gmap string (gset string)) (sid : string) (trace : list Effect)
  : list (string * JsVal) :=
  omap (receives rooms sid) trace.

Definition events_named (name : string) (evs : list (string * JsVal)) : list JsVal :=
  omap (λ ev, if String.eqb (fst ev) name then Some (snd ev) else None) evs.

(** ** Presence and typing state *)

Record Realtime : Type := mkRealtime {
  activeUsers : gmap string string;          (* userId -> socketId *)
  userSockets : gmap string string;          (* socketId -> userId *)
  typingUsers : gmap string (gset string);   (* conversationId -> Set of typing userIds *)
  rooms : gmap string (gset string)          (* adapter: room -> socket ids *)
}.

Definition initial : Realtime :=
  {| activeUsers := ∅; userSockets := ∅; typingUsers := ∅; rooms := ∅ |}.

Definition join_room (sid room : string) (rs : gmap string (gset string))
  : gmap string (gset string) :=
  <[room := {[sid]} ∪ members rs room]> rs.

Definition leave_room (sid room : string) (rs : gmap string (gset string))
  : gmap string (gset string) :=
  match rs !! room with
  | Some ms => <[room := ms ∖ {[sid]}]> rs
  | None => rs
  end.

Definition typing_payload (conversationId : string) (sock : Socket) : JsVal :=
  JObj [("conversationId", JStr conversationId);
        ("userId", JStr (userId sock));
        ("username", JStr (username sock))].

(** [typingInConversation.delete(userId); if (size === 0) typingUsers.delete(id)] *)
Definition remove_typing (conversationId uid : string) (users : gset string)
    (typing : gmap string (gset string)) : gmap string (gset string) :=
  let users' := users ∖ {[uid]} in
  if decide (size users' = 0%nat) then delete conversationId typing
  else <[conversationId := users']> typing.

(** [io.on('connection', ...)].  Socket.IO has put the socket in the room
    named by its own id; the handler adds the user's personal room. *)
Definition connection (sock : Socket) (s : Realtime) : Realtime * list Effect :=
  ({| activeUsers := <[userId sock := socket_id sock]> (activeUsers s);
      userSockets := <[socket_id sock := userId sock]> (userSockets s);
      typingUsers := typingUsers s;
      rooms := join_room (socket_id sock) (user_room (userId sock))
                 (join_room (socket_id sock) (socket_id sock) (rooms s)) |},
   [SocketEmit (socket_id sock) "connected"
      (JObj [("userId", JStr (userId sock));
             ("message", JStr "Successfully connected to chat server")])]).

(** [socket.on('join-conversation', ...)] *)
Definition join_conversation (sock : Socket) (conversationId : string) (s : Realtime)
  : Realtime * list Effect :=
  ({| activeUsers := activeUsers s;
      userSockets := userSockets s;
      typingUsers := typingUsers s;
      rooms := join_room (socket_id sock) (conversation_room conversationId) (rooms s) |},
   [SocketEmit (socket_id sock) "joined-conversation"
      (JObj [("conversationId", JStr conversationId);
             ("message", JStr "Joined conversation room")])]).

(** [socket.on('leave-conversation', ...)] *)
Definition leave_conversation (sock : Socket) (conversationId : string) (s : Realtime)
  : Realtime * list Effect :=
  let rooms' := leave_room (socket_id sock) (conversation_room conversationId) (rooms s) in
  match typingUsers s !! conversationId with
  | Some typingInConversation =>
      ({| activeUsers := activeUsers s;
          userSockets := userSockets s;
          typingUsers := remove_typing conversationId (userId sock)
                           typingInConversation (typingUsers s);
          rooms := rooms' |},
       [SocketToEmit (socket_id sock) (conversation_room conversationId)
          "typing-stopped" (typing_payload conversationId sock)])
  | None =>
      ({| activeUsers := activeUsers s;
          userSockets := userSockets s;
          typingUsers := typingUsers s;
          rooms := rooms' |}, [])
  end.

(** [socket.on('typing-start', ...)] *)
Definition typing_start (sock : Socket) (conversationId : string) (s : Realtime)
  : Realtime * list Effect :=
  let typing1 :=
    match typingUsers s !! conversationId with
    | Some _ => typingUsers s
    | None => <[conversationId := ∅]> (typingUsers s)
    end in
  let users := default ∅ (typing1 !! conversationId) in
  ({| activeUsers := activeUsers s;
      userSockets := userSockets s;
      typingUsers := <[conversationId := {[userId sock]} ∪ users]> typing1;
      rooms := rooms s |},
   [SocketToEmit (socket_id sock) (conversation_room conversationId)
      "typing-start" (typing_payload conversationId sock)]).

(** [socket.on('typing-stop', ...)] *)
Definition typing_stop (sock : Socket) (conversationId : string) (s : Realtime)
  : Realtime * list Effect :=
  match typingUsers s !! conversationId with
  | Some typingInConversation =>
      ({| activeUsers := activeUsers s;
          userSockets := userSockets s;
          typingUsers := remove_typing conversationId (userId sock)
                           typingInConversation (typingUsers s);
          rooms := rooms s |},
       [SocketToEmit (socket_id sock) (conversation_room conversationId)
          "typing-stopped" (typing_payload conversationId sock)])
  | None => (s, [])
  end.

(** The body of the [typingUsers.forEach] callback of the disconnect
    handler, as the new binding of one entry ([None]: the key is deleted). *)
Definition disconnect_entry (uid : string) (users : gset string) : option (gset string) :=
  if decide (uid ∈ users) then
    let users' := users ∖ {[uid]} in
    if decide (size users' = 0%nat) then None else Some users'
  else Some users.

(** [socket.on('disconnect', ...)].  Socket.IO has removed the socket from
    all its rooms when the handler runs.  [Map.forEach] visits every entry
    once, and the callback deletes at most the entry it visits, so the loop
    is an entry-wise update; one [typing-stopped] is emitted per room the
    user was typing in.  The list is in the enumeration order of the
    [gmap], not in the insertion order of the JS [Map]: which calls are
    made is modelled, their order among themselves is not. *)
Definition disconnect (sock : Socket) (s : Realtime) : Realtime * list Effect :=
  ({| activeUsers := delete (userId sock) (activeUsers s);
      userSockets := delete (socket_id sock) (userSockets s);
      typingUsers := omap (disconnect_entry (userId sock)) (typingUsers s);
      rooms := (λ ms, ms ∖ {[socket_id sock]}) <$> rooms s |},
   (λ kv, IoToEmit (conversation_room (fst kv)) "typing-stopped"
            (typing_payload (fst kv) sock))
     <$> map_to_list (filter (λ kv, userId sock ∈ snd kv) (typingUsers s))).

(** Client events handled without awaiting anything. *)
Inductive ClientEvent : Type :=
| Connection (sock : Socket)
| JoinConversation (sock : Socket) (conversationId : string)
| LeaveConversation (sock : Socket) (conversationId : string)
| TypingStart (sock : Socket) (conversationId : string)
| TypingStop (sock : Socket) (conversationId : string)
| Disconnect (sock : Socket).


Definition handle (ev : ClientEvent) (s : Realtime) : Realtime * list Effect :=
  match ev with
  | Connection sock => connection sock s
  | JoinConversation sock c => join_conversation sock c s
  | LeaveConversation sock c => leave_conversation sock c s
  | TypingStart sock c => typing_start sock c s
  | TypingStop sock c => typing_stop sock c s
  | Disconnect sock => disconnect sock s
  end.

(** Handling a sequence of events: the final state and all calls made. *)
Fixpoint run (evs : list ClientEvent) (s : Realtime) : Realtime * list Effect :=
  match evs with
  | [] => (s, [])
  | ev :: rest =>
      let '(s1, out1) := handle ev s in
      let '(s2, out2) := run rest s1 in
      (s2, out1 ++ out2)
  end.

Definition reachable (s : Realtime) : Prop := ∃ evs, fst (run evs initial) = s.

(** The read paths of the realtime routes. *)
Definition isConnected (uid : string) (s : Realtime) : bool :=
  bool_decide (is_Some (activeUsers s !! uid)).

Definition hasTypingUsers (conversationId : string) (s : Realtime) : bool :=
  bool_decide (is_Some (typingUsers s !! conversationId)).

Definition typingUsersList (conversationId : string) (s : Realtime) : gset string :=
  default ∅ (typingUsers s !! conversationId).

(** ** Documents: conversations and users *)

(** The fields of a conversation document read or written by the modelled
    handlers ([metadata] bookkeeping, a float average and dates, is left
    out: no handler below reads it). *)
Record Conversation : Type := mkConversation {
  conv_id : string;            (* _id *)
  conv_userId : string;        (* userId *)
  conv_model : string;         (* model *)
  title : string;
  messages : list Message;
  totalTokens : Z;
  totalMessages : Z
}.

(** The argument of [addMessage]; absent properties are [None]. *)
Record MessageData : Type := mkMessageData {
  md_role : string;
  md_content : string;
  md_model : option string;
  md_tokens : option Z;
  md_processingTime : option Z;
  md_error : option string
}.

(** JS [a || b] on a possibly undefined string: [undefined] and the empty
    string are falsy. *)
Definition or_string (a : option string) (b : string) : string :=
  match a with
  | Some s => if String.eqb s "" then b else s
  | None => b
  end.

(** The [message] object built at the top of
    [conversationSchema.methods.addMessage]. *)
Definition new_message (messageData : MessageData) (this : Conversation) : Message :=
  {| role := md_role messageData;
     content := md_content messageData;
     tokens := default 0 (md_tokens messageData);
     model := or_string (md_model messageData) (conv_model this);
     processingTime := md_processingTime messageData;
     error := md_error messageData |}.

(** The in-memory part of [addMessage]; the method then returns
    [this.save()], whose outcome is the environment's. *)
Definition addMessage (messageData : MessageData) (this : Conversation) : Conversation :=
  let message := new_message messageData this in
  {| conv_id := conv_id this;
     conv_userId := conv_userId this;
     conv_model := conv_model this;
     title :=
       if String.eqb (title this) "New Conversation" && String.eqb (role message) "user"
       then String.substring 0 50 (content message)
              +:+ (if (50 <? String.length (content message))%nat then "..." else "")
       else title this;
     messages := messages this ++ [message];
     totalTokens := totalTokens this + tokens message;
     totalMessages := totalMessages this + 1 |}.

(** [userSchema.methods.incrementUsage] *)
Definition incrementUsage (messageCount tokenCount : Z) (this : User) : User :=
  {| user_id := user_id this;
     usage := {| messagesThisMonth := messagesThisMonth (usage this) + messageCount;
                 usage_totalMessages := usage_totalMessages (usage this) + messageCount;
                 usage_totalTokens := usage_totalTokens (usage this) + tokenCount |} |}.

(** ** Asynchronous handlers *)

(** How an awaited promise settles. *)
Inductive Outcome (A : Type) : Type :=
| Resolves (a : A)
| Rejects (err : string).
Arguments Resolves {A} a.
Arguments Rejects {A} err.

(** An async function body: the calls made so far and either a thrown error
    or a result. *)
Definition Task (A : Type) : Type := (list Effect * (string + A))%type.

#[global] Instance Task_ret : MRet Task := λ A a, ([], inr a).

#[global] Instance Task_bind : MBind Task := λ A B k m,
  match m with
  | (out, inl err) => (out, inl err)
  | (out, inr a) => (out ++ fst (k a), snd (k a))
  end.

Definition emit (e : Effect) : Task unit := ([e], inr tt).

Definition await {A : Type} (o : Outcome A) : Task A :=
  match o with
  | Resolves a => ([], inr a)
  | Rejects err => ([], inl err)
  end.

(** [try { body } catch (error) { handler(error) }] *)
Definition try_catch {A : Type} (body : Task A) (handler : string → Task A) : Task A :=
  match body with
  | (out, inl err) => (out ++ fst (handler err), snd (handler err))
  | (out, inr a) => (out, inr a)
  end.

Definition calls {A : Type} (t : Task A) : list Effect := fst t.

(** What the provider's async iterator yields: the [delta.content] of each
    chunk ([None] when the optional chain is undefined), then either the end
    of the stream or a thrown error. *)
Record ProviderStream : Type := mkProviderStream {
  chunks : list (option string);
  throws : option string
}.

(** [await conversation.addMessage(messageData)] *)
Definition save_message (saved : Outcome unit) (messageData : MessageData)
    (conversation : Conversation) : Task Conversation :=
  _ ← await saved;
  _ ← emit (Persisted (conv_id conversation) (new_message messageData conversation));
  mret (addMessage messageData conversation).

Definition history (conversation : Conversation) : list (string * string) :=
  (λ msg, (role msg, content msg)) <$> messages conversation.

Definition chunk_payload (conversation : Conversation) (content : string) : JsVal :=
  JObj [("conversationId", JStr (conv_id conversation));
        ("chunk", JStr content);
        ("isComplete", JBool false)].

Definition complete_payload (conversation : Conversation) (fullResponse : string)
    (tokenCount now : Z) : JsVal :=
  JObj [("conversationId", JStr (conv_id conversation));
        ("message", JObj [("role", JStr "assistant");
                          ("content", JStr fullResponse);
                          ("timestamp", JDate now);
                          ("tokens", JNum tokenCount)])].

Definition message_sent_payload (conversationId message uid uname : string) (now : Z) : JsVal :=
  JObj [("conversationId", JStr conversationId);
        ("message", JObj [("role", JStr "user");
                          ("content", JStr message);
                          ("timestamp", JDate now);
                          ("userId", JStr uid);
                          ("username", JStr uname)])].

Definition typing_ai_payload (conversation : Conversation) : JsVal :=
  JObj [("conversationId", JStr (conv_id conversation));
        ("message", JStr "AI is thinking...")].

Definition conversation_only_payload (conversation : Conversation) : JsVal :=
  JObj [("conversationId", JStr (conv_id conversation))].

Definition stream_error_payload (conversation : Conversation) (text : string) : JsVal :=
  JObj [("conversationId", JStr (conv_id conversation)); ("error", JStr text)].

(** *** The socket path: [stream-message] and [streamAIResponse] *)

(** The [data] argument of the [stream-message] event. *)
Record StreamData : Type := mkStreamData {
  data_conversationId : string;
  data_message : string;
  data_model : option string
}.

(** The running state of the [for await] loop: [fullResponse] and
    [tokenCount]. *)
Record Buffer : Type := mkBuffer {
  fullResponse : string;
  tokenCount : Z
}.

(** The user message [stream-message] hands to [addMessage]. *)
Definition user_message_data (data : StreamData) (conversation : Conversation) : MessageData :=
  {| md_role := "user";
     md_content := data_message data;
     md_model := Some (or_string (data_model data) (conv_model conversation));
     md_tokens := None;
     md_processingTime := None;
     md_error := None |}.

(** The assistant message both paths hand to [addMessage] after the loop. *)
Definition assistant_message_data (model : option string) (conversation : Conversation)
    (buf : Buffer) (elapsed : Z) : MessageData :=
  {| md_role := "assistant";
     md_content := fullResponse buf;
     md_model := Some (or_string model (conv_model conversation));
     md_tokens := Some (tokenCount buf);
     md_processingTime := Some elapsed;
     md_error := None |}.

(** One iteration of the [for await] loop of [streamAIResponse]. *)
Definition on_chunk (socket : Socket) (conversation : Conversation)
    (buf : Buffer) (chunk : option string) : Buffer * list Effect :=
  match chunk with
  | Some content =>
      if String.eqb content "" then (buf, [])
      else ({| fullResponse := fullResponse buf +:+ content;
               tokenCount := tokenCount buf + 1 |},
            [SocketEmit (socket_id socket) "ai-stream-chunk"
               (chunk_payload conversation content);
             SocketToEmit (socket_id socket) (conversation_room (conv_id conversation))
               "ai-stream-chunk" (chunk_payload conversation content)])
  | None => (buf, [])
  end.

Fixpoint for_await (socket : Socket) (conversation : Conversation)
    (buf : Buffer) (cs : list (option string)) : Buffer * list Effect :=
  match cs with
  | [] => (buf, [])
  | c :: rest =>
      let '(buf1, out1) := on_chunk socket conversation buf c in
      let '(buf2, out2) := for_await socket conversation buf1 rest in
      (buf2, out1 ++ out2)
  end.

(** What the environment answers to one run of [streamAIResponse]. *)
Record StreamEnv : Type := mkStreamEnv {
  create_result : Outcome ProviderStream;   (* openai.chat.completions.create *)
  now_a : Z;                                (* Date.now() - Date.now(): left, right *)
  now_b : Z;
  save_assistant : Outcome unit;            (* conversation.addMessage(assistant) *)
  now_complete_socket : Z;                  (* new Date() of the two completion payloads *)
  now_complete_room : Z;
  findById_result : Outcome (option User);  (* User.findById(socket.userId) *)
  save_usage : Outcome unit                 (* user.save() *)
}.

(** [streamAIResponse], from the start of its [try] block to the resolved
    [create] call. *)
Definition stream_begin (socket : Socket) (conversation : Conversation)
    (model : option string) (env : StreamEnv) : Task ProviderStream :=
  _ ← emit (SocketToEmit (socket_id socket) (conversation_room (conv_id conversation))
              "ai-typing-start" (typing_ai_payload conversation));
  _ ← emit (ProviderCall (or_string model (conv_model conversation)) (history conversation));
  await (create_result env).

(** The [for await] loop over a whole stream. *)
Definition stream_consume (socket : Socket) (conversation : Conversation)
    (buf : Buffer) (stream : ProviderStream) : Task Buffer :=
  let r := for_await socket conversation buf (chunks stream) in
  (snd r, match throws stream with
          | Some err => inl err
          | None => inr (fst r)
          end).

(** [streamAIResponse] after the loop, to the end of its [try] block. *)
Definition stream_end (socket : Socket) (conversation : Conversation)
    (model : option string) (env : StreamEnv) (buf : Buffer) : Task unit :=
  _ ← save_message (save_assistant env)
        (assistant_message_data model conversation buf (now_a env - now_b env))
        conversation;
  _ ← emit (SocketEmit (socket_id socket) "ai-stream-complete"
              (complete_payload conversation (fullResponse buf) (tokenCount buf)
                 (now_complete_socket env)));
  _ ← emit (SocketToEmit (socket_id socket) (conversation_room (conv_id conversation))
              "ai-stream-complete"
              (complete_payload conversation (fullResponse buf) (tokenCount buf)
                 (now_complete_room env)));
  _ ← emit (SocketToEmit (socket_id socket) (conversation_room (conv_id conversation))
              "ai-typing-stop" (conversation_only_payload conversation));
  user ← await (findById_result env);
  match user with
  | Some u =>
      _ ← await (save_usage env);
      emit (UsageSaved (incrementUsage 1 (tokenCount buf) u))
  | None => mret tt
  end.

(** The [catch] block of [streamAIResponse]. *)
Definition stream_catch (socket : Socket) (conversation : Conversation)
    (err : string) : Task unit :=
  _ ← emit (ConsoleError "AI streaming error:");
  _ ← emit (SocketEmit (socket_id socket) "ai-stream-error"
              (stream_error_payload conversation "Failed to generate AI response"));
  emit (SocketToEmit (socket_id socket) (conversation_room (conv_id conversation))
          "ai-typing-stop" (conversation_only_payload conversation)).

(** The calls of [streamAIResponse] once the loop has ended normally with
    buffer [buf]: the rest of the [try] block, and the [catch] block if a
    later await rejects. *)
Definition after_loop (socket : Socket) (conversation : Conversation)
    (model : option string) (senv : StreamEnv) (buf : Buffer) : list Effect :=
  match save_assistant senv with
  | Rejects err => calls (stream_catch socket conversation err)
  | Resolves _ =>
      [Persisted (conv_id conversation)
         (new_message
            (assistant_message_data model conversation buf (now_a senv - now_b senv))
            conversation);
       SocketEmit (socket_id socket) "ai-stream-complete"
         (complete_payload conversation (fullResponse buf) (tokenCount buf)
            (now_complete_socket senv));
       SocketToEmit (socket_id socket) (conversation_room (conv_id conversation))
         "ai-stream-complete"
         (complete_payload conversation (fullResponse buf) (tokenCount buf)
            (now_complete_room senv));
       SocketToEmit (socket_id socket) (conversation_room (conv_id conversation))
         "ai-typing-stop" (conversation_only_payload conversation)]
      ++ match findById_result senv with
         | Rejects err => calls (stream_catch socket conversation err)
         | Resolves None => []
         | Resolves (Some u) =>
             match save_usage senv with
             | Rejects err => calls (stream_catch socket conversation err)
             | Resolves _ => [UsageSaved (incrementUsage 1 (tokenCount buf) u)]
             end
         end
  end.

(** [async function streamAIResponse(socket, conversation, model)] *)
Definition streamAIResponse (socket : Socket) (conversation : Conversation)
    (model : option string) (env : StreamEnv) : Task unit :=
  try_catch
    (stream ← stream_begin socket conversation model env;
     buf ← stream_consume socket conversation (mkBuffer "" 0) stream;
     stream_end socket conversation model env buf)
    (stream_catch socket conversation).

(** What the environment answers to the [stream-message] handler before it
    calls [streamAIResponse]. *)
Record SubmitEnv : Type := mkSubmitEnv {
  findOne_result : Outcome (option Conversation);  (* Conversation.findOne({_id, userId}) *)
  save_user_message : Outcome unit;                (* conversation.addMessage(user) *)
  now_sent : Z                                     (* new Date() of message-sent *)
}.

Definition not_found_payload : JsVal :=
  JObj [("message", JStr "Conversation not found or access denied")].

Definition failed_payload : JsVal :=
  JObj [("message", JStr "Failed to process message")].

(** The [stream-message] handler up to the call of [streamAIResponse]:
    [None] when it returned early, otherwise the conversation it passes on. *)
Definition stream_message_accept (socket : Socket) (data : StreamData)
    (env : SubmitEnv) : Task (option Conversation) :=
  found ← await (findOne_result env);
  match found with
  | None =>
      _ ← emit (SocketEmit (socket_id socket) "error" not_found_payload);
      mret None
  | Some conversation =>
      conversation' ← save_message (save_user_message env)
        (user_message_data data conversation) conversation;
      _ ← emit (IoToEmit (conversation_room (data_conversationId data)) "message-sent"
                  (message_sent_payload (data_conversationId data) (data_message data)
                     (userId socket) (username socket) (now_sent env)));
      mret (Some conversation')
  end.

(** The [catch] block of the [stream-message] handler. *)
Definition stream_message_catch (socket : Socket) (err : string) : Task unit :=
  _ ← emit (ConsoleError "Stream message error:");
  emit (SocketEmit (socket_id socket) "error" failed_payload).

(** [socket.on('stream-message', async (data) => ...)] *)
Definition stream_message (socket : Socket) (data : StreamData)
    (env : SubmitEnv) (senv : StreamEnv) : Task unit :=
  try_catch
    (accepted ← stream_message_accept socket data env;
     match accepted with
     | Some conversation => streamAIResponse socket conversation (data_model data) senv
     | None => mret tt
     end)
    (stream_message_catch socket).

(** *** The HTTP path: [POST /conversations/:id/messages] *)

(** What the route reads of [req] after [requireAuth], [checkMessageLimit]
    and [validate] have passed ([attachments] are not modelled). *)
Record Request : Type := mkRequest {
  req_user : User;
  req_username : string;
  params_id : string;
  body_message : string;
  body_model : option string
}.

Record PostEnv : Type := mkPostEnv {
  post_findOne : Outcome (option Conversation);
  startTime : Z;
  post_save_user_message : Outcome unit;
  post_now_sent : Z;
  post_create : Outcome ProviderStream;
  post_now_saved : Z;                    (* Date.now() of the assistant processingTime *)
  post_save_assistant : Outcome unit;
  post_save_usage : Outcome unit;        (* req.user.save() inside updateUsage *)
  post_now_complete : Z;
  post_now_failed : Z;                   (* Date.now() of the error processingTime *)
  post_save_error_message : Outcome unit
}.

Definition error_message_text : string :=
  "Sorry, I encountered an error while processing your request. Please try again.".

(** The user message the route hands to [addMessage]. *)
Definition post_user_message_data (req : Request) (conversation : Conversation)
  : MessageData :=
  {| md_role := "user";
     md_content := body_message req;
     md_model := Some (or_string (body_model req) (conv_model conversation));
     md_tokens := None;
     md_processingTime := None;
     md_error := None |}.

(** The message the route's [catch] block hands to [addMessage]. *)
Definition error_message_data (env : PostEnv) (err : string) : MessageData :=
  {| md_role := "assistant";
     md_content := error_message_text;
     md_model := None;
     md_tokens := None;
     md_processingTime := Some (post_now_failed env - startTime env);
     md_error := Some err |}.

(** The [updateUsage] middleware, called with a [next] that does nothing. *)
Definition updateUsage (user : User) (saved : Outcome unit) : Task unit :=
  try_catch
    (_ ← await saved;
     emit (UsageSaved
             {| user_id := user_id user;
                usage := {| messagesThisMonth := messagesThisMonth (usage user) + 1;
                            usage_totalMessages := usage_totalMessages (usage user);
                            usage_totalTokens := usage_totalTokens (usage user) |} |}))
    (λ err, emit (ConsoleError "Error updating usage:")).

(** One iteration of the route's [for await] loop. *)
Definition post_on_chunk (conversation : Conversation) (buf : Buffer)
    (chunk : option string) : Buffer * list Effect :=
  match chunk with
  | Some content =>
      if String.eqb content "" then (buf, [])
      else ({| fullResponse := fullResponse buf +:+ content;
               tokenCount := tokenCount buf + 1 |},
            [IoToEmit (conversation_room (conv_id conversation)) "ai-stream-chunk"
               (chunk_payload conversation content)])
  | None => (buf, [])
  end.

Fixpoint post_for_await (conversation : Conversation) (buf : Buffer)
    (cs : list (option string)) : Buffer * list Effect :=
  match cs with
  | [] => (buf, [])
  | c :: rest =>
      let '(buf1, out1) := post_on_chunk conversation buf c in
      let '(buf2, out2) := post_for_await conversation buf1 rest in
      (buf2, out1 ++ out2)
  end.

Definition post_consume (conversation : Conversation) (stream : ProviderStream)
  : Task Buffer :=
  let r := post_for_await conversation (mkBuffer "" 0) (chunks stream) in
  (snd r, match throws stream with
          | Some err => inl err
          | None => inr (fst r)
          end).

(** The [try] block of the route. *)
Definition post_try (req : Request) (conversation : Conversation) (env : PostEnv)
  : Task unit :=
  conversation1 ← save_message (post_save_user_message env)
    (post_user_message_data req conversation) conversation;
  _ ← emit (IoToEmit (conversation_room (conv_id conversation)) "message-sent"
              (message_sent_payload (conv_id conversation) (body_message req)
                 (user_id (req_user req)) (req_username req) (post_now_sent env)));
  _ ← emit (IoToEmit (conversation_room (conv_id conversation)) "ai-typing-start"
              (typing_ai_payload conversation));
  _ ← emit (ProviderCall (or_string (body_model req) (conv_model conversation))
              (history conversation1));
  stream ← await (post_create env);
  buf ← post_consume conversation stream;
  _ ← save_message (post_save_assistant env)
        (assistant_message_data (body_model req) conversation buf
           (post_now_saved env - startTime env))
        conversation1;
  _ ← updateUsage (req_user req) (post_save_usage env);
  _ ← emit (IoToEmit (conversation_room (conv_id conversation)) "ai-stream-complete"
              (complete_payload conversation (fullResponse buf) (tokenCount buf)
                 (post_now_complete env)));
  _ ← emit (IoToEmit (conversation_room (conv_id conversation)) "ai-typing-stop"
              (conversation_only_payload conversation));
  _ ← emit (LogInfo "Message sent successfully");
  emit (Respond 200 true).

(** The [catch] block of the route.  The document is the one the [try]
    block mutated; [new_message] reads only its [model], which no
    [addMessage] changes. *)
Definition post_catch (req : Request) (conversation : Conversation) (env : PostEnv)
    (err : string) : Task unit :=
  _ ← emit (LogWarn "OpenAI API error");
  _ ← emit (IoToEmit (conversation_room (conv_id conversation)) "ai-stream-error"
              (stream_error_payload conversation "Failed to generate response"));
  _ ← emit (IoToEmit (conversation_room (conv_id conversation)) "ai-typing-stop"
              (conversation_only_payload conversation));
  _ ← save_message (post_save_error_message env)
        (error_message_data env err) conversation;
  emit (Respond 500 false).

(** The calls of the route once its loop has ended normally. *)
Definition post_after_loop (req : Request) (conversation : Conversation)
    (env : PostEnv) (buf : Buffer) : list Effect :=
  match post_save_assistant env with
  | Rejects err => calls (post_catch req conversation env err)
  | Resolves _ =>
      [Persisted (conv_id conversation)
         (new_message
            (assistant_message_data (body_model req) conversation buf
               (post_now_saved env - startTime env))
            (addMessage (post_user_message_data req conversation) conversation))]
      ++ calls (updateUsage (req_user req) (post_save_usage env))
      ++ [IoToEmit (conversation_room (conv_id conversation)) "ai-stream-complete"
            (complete_payload conversation (fullResponse buf) (tokenCount buf)
               (post_now_complete env));
          IoToEmit (conversation_room (conv_id conversation)) "ai-typing-stop"
            (conversation_only_payload conversation);
          LogInfo "Message sent successfully";
          Respond 200 true]
  end.

(** The route handler; an error it throws reaches [asyncHandler]. *)
Definition post_message (req : Request) (env : PostEnv) : Task unit :=
  found ← await (post_findOne env);
  match found with
  | None => emit (Respond 404 false)
  | Some conversation =>
      try_catch (post_try req conversation env) (post_catch req conversation env)
  end.

(** ** Interleaving of [stream-message] runs

    Tasks run one at a time and yield at each [await].  A run of the
    [stream-message] handler that has entered the [for await] loop of
    [streamAIResponse] is a streaming session; the scheduler picks which
    session receives its next chunk.  The handler reads no state shared
    between runs, so its awaits before the loop, and those after it, are
    each taken as one step: what a run does is the same under any finer
    interleaving. *)

Record StreamSession : Type := mkStreamSession {
  session_socket : Socket;
  session_conversation : Conversation;
  session_model : option string;
  session_env : StreamEnv;
  session_buffer : Buffer;
  pending : list (option string);   (* chunks the iterator has yet to yield *)
  ending : option string            (* what it does after them *)
}.

Record Node : Type := mkNode {
  streaming : list StreamSession;
  trace : list Effect
}.

Definition idle : Node := {| streaming := []; trace := [] |}.

Inductive NodeEvent : Type :=
| Submit (socket : Socket) (data : StreamData) (env : SubmitEnv) (senv : StreamEnv)
| Advance (i : nat).

(** A [stream-message] run from its start until it first waits for a chunk
    (or ends before that). *)
Definition submit (socket : Socket) (data : StreamData) (env : SubmitEnv)
    (senv : StreamEnv) : Task (option StreamSession) :=
  try_catch
    (accepted ← stream_message_accept socket data env;
     match accepted with
     | Some conversation =>
         try_catch
           (stream ← stream_begin socket conversation (data_model data) senv;
            mret (Some {| session_socket := socket;
                          session_conversation := conversation;
                          session_model := data_model data;
                          session_env := senv;
                          session_buffer := mkBuffer "" 0;
                          pending := chunks stream;
                          ending := throws stream |}))
           (λ err, _ ← stream_catch socket conversation err; mret None)
     | None => mret None
     end)
    (λ err, _ ← stream_message_catch socket err; mret None).

(** The next step of a streaming session: one loop iteration, or, when the
    iterator is exhausted, the rest of [streamAIResponse]. *)
Definition advance (s : StreamSession) : option StreamSession * list Effect :=
  match pending s with
  | c :: rest =>
      let '(buf, out) := on_chunk (session_socket s) (session_conversation s)
                           (session_buffer s) c in
      (Some {| session_socket := session_socket s;
               session_conversation := session_conversation s;
               session_model := session_model s;
               session_env := session_env s;
               session_buffer := buf;
               pending := rest;
               ending := ending s |}, out)
  | [] =>
      (None,
       calls (try_catch
                (match ending s with
                 | Some err => ([], inl err)
                 | None => stream_end (session_socket s) (session_conversation s)
                             (session_model s) (session_env s) (session_buffer s)
                 end)
                (stream_catch (session_socket s) (session_conversation s))))
  end.

Definition node_step (ev : NodeEvent) (n : Node) : Node :=
  match ev with
  | Submit socket data env senv =>
      let t := submit socket data env senv in
      {| streaming :=
           match snd t with
           | inr (Some session) => streaming n ++ [session]
           | _ => streaming n
           end;
         trace := trace n ++ calls t |}
  | Advance i =>
      match streaming n !! i with
      | Some s =>
          let '(s', out) := advance s in
          {| streaming :=
               match s' with
               | Some s1 => <[i := s1]> (streaming n)
               | None => delete i (streaming n)
               end;
             trace := trace n ++ out |}
      | None => n
      end
  end.

Definition node_run (evs : list NodeEvent) (n : Node) : Node :=
  foldl (λ n ev, node_step ev n) n evs.

Definition streaming_count (conversationId : string) (n : Node) : nat :=
  length (filter (λ s, conv_id (session_conversation s) = conversationId) (streaming n)).

(** The guard of the specification: no conversation has two sessions in the
    loop at once. *)
Definition at_most_one_streaming (n : Node) : Prop :=
  ∀ conversationId, (streaming_count conversationId n ≤ 1)%nat.

(** ** Counting events in a trace *)

Definition effect_event (e : Effect) : option (string * JsVal) :=
  match e with
  | SocketEmit _ ev p | SocketToEmit _ _ ev p | IoToEmit _ ev p => Some (ev, p)
  | _ => None
  end.

(** Is [e] an emission of [typing-stopped] whose payload names [uid]? *)
Definition is_typing_stopped (uid : string) (e : Effect) : bool :=
  match effect_event e with
  | Some (ev, p) =>
      String.eqb ev "typing-stopped" && String.eqb (as_string (get_field "userId" p)) uid
  | None => false
  end.

Definition typing_stopped_count (uid : string) (out : list Effect) : nat :=
  length (filter (λ e, is_typing_stopped uid e = true) out).

(** The increments the loops forward: the truthy [delta.content] values. *)
Definition texts (cs : list (option string)) : list string :=
  omap (λ c, match c with
             | Some content => if String.eqb content "" then None else Some content
             | None => None
             end) cs.

Definition concat_texts (l : list string) : string := foldr String.append "" l.


(** [payload.message.content] *)
Definition message_content (p : JsVal) : string :=
  as_string (get_field "message" p ≫= get_field "content").

(** The reading of "sequence numbers strictly increasing with no gaps": the
    i-th chunk payload carries [seq = base + i]. *)
Definition seq_gap_free (payloads : list JsVal) : Prop :=
  ∃ base : Z, ∀ (i : nat) p, payloads !! i = Some p →
    get_field "seq" p = Some (JNum (base + Z.of_nat i)).

(** The audience of the socket path's chunk and completion events: the
    submitting socket and the members of the conversation's room. *)
Definition reached (rooms : gmap string (gset string)) (socket : Socket)
    (conversation : Conversation) (m : string) : Prop :=
  m = socket_id socket ∨ m ∈ members rooms (conversation_room (conv_id conversation)).

#[global] Instance reached_dec rooms socket conversation m :
  Decision (reached rooms socket conversation m).
Proof. unfold reached. apply _. Defined.

(** The payloads of the chunk events, and of the completion events, that
    socket [m] receives from a trace. *)
Definition chunks_seen (rooms : gmap string (gset string)) (m : string)
    (trace : list Effect) : list JsVal :=
  events_named "ai-stream-chunk" (observed rooms m trace).

Definition completions_seen (rooms : gmap string (gset string)) (m : string)
    (trace : list Effect) : list JsVal :=
  events_named "ai-stream-complete" (observed rooms m trace).

Definition chunk_text (p : JsVal) : string := as_string (get_field "chunk" p).

Definition is_provider_call (e : Effect) : bool :=
  match e with
  | ProviderCall _ _ => true
  | _ => false
  end.



Definition no_generation (trace : list Effect) : Prop :=
  Forall (λ e, is_provider_call e = false) trace.

(** The messages written to the database during a trace, in order. *)
Definition persisted (trace : list Effect) : list Message :=
  omap (λ e, match e with
             | Persisted _ msg => Some msg
             | _ => None
             end) trace.

(** The names of the events socket [m] receives from a trace, in order. *)
Definition event_names (rooms : gmap string (gset string)) (m : string)
    (trace : list Effect) : list string :=
  fst <$> observed rooms m trace.

(** The invariant of [typingUsers]: no key is bound to an empty set. *)
Definition typing_sets_nonempty (typing : gmap string (gset string)) : Prop :=
  ∀ c users, typing !! c = Some users → users ≠ ∅.

(** ** Sample data for the examples *)

Definition alice : Socket := mkSocket "s-alice" "alice" "Alice".
Definition alice_tab2 : Socket := mkSocket "s-alice-2" "alice" "Alice".
Definition bob : Socket := mkSocket "s-bob" "bob" "Bob".

(** Alice and Bob are connected and in the room of conversation [c1]. *)
Definition both_joined : list ClientEvent :=
  [Connection alice; JoinConversation alice "c1";
   Connection bob; JoinConversation bob "c1"].

(** Alice owns conversation [c1] and submits "hello" on it. *)
Definition conv1 : Conversation :=
  mkConversation "c1" "alice" "gpt-4o-mini" "New Conversation" [] 0 0.

Definition hello : StreamData := mkStreamData "c1" "hello" None.

Definition accepted : SubmitEnv := mkSubmitEnv (Resolves (Some conv1)) (Resolves tt) 1000.

Definition alice_user : User := mkUser "alice" (mkUsage 3 3 40).

(** The provider yields "Hi", a chunk without content, an empty one and
    " there", then ends. *)
Definition hi_there : ProviderStream :=
  mkProviderStream [Some "Hi"; None; Some ""; Some " there"] None.

(** The provider yields two increments and then throws. *)
Definition breaks_after_two : ProviderStream :=
  mkProviderStream [Some "Hi"; Some " the"] (Some "socket hang up").

Definition completes : StreamEnv :=
  mkStreamEnv (Resolves hi_there) 2000 2000 (Resolves tt) 2001 2002
    (Resolves (Some alice_user)) (Resolves tt).

Definition usage_save_fails : StreamEnv :=
  mkStreamEnv (Resolves hi_there) 2000 2000 (Resolves tt) 2001 2002
    (Resolves (Some alice_user)) (Rejects "user save failed").

Definition provider_fails : StreamEnv :=
  mkStreamEnv (Resolves breaks_after_two) 2000 2000 (Resolves tt) 2001 2002
    (Resolves (Some alice_user)) (Resolves tt).

(** The rooms once Alice and Bob have joined [c1]. *)
Definition rooms_joined : gmap string (gset string) :=
  rooms (fst (run both_joined initial)).

Definition alice_request : Request := mkRequest alice_user "Alice" "c1" "hello" None.

Definition post_completes : PostEnv :=
  mkPostEnv (Resolves (Some conv1)) 1000 (Resolves tt) 1001 (Resolves hi_there)
    2000 (Resolves tt) (Resolves tt) 2001 2002 (Resolves tt).

Definition post_usage_save_fails : PostEnv :=
  mkPostEnv (Resolves (Some conv1)) 1000 (Resolves tt) 1001 (Resolves hi_there)
    2000 (Resolves tt) (Rejects "user save failed") 2001 2002 (Resolves tt).

Definition post_provider_fails : PostEnv :=
  mkPostEnv (Resolves (Some conv1)) 1000 (Resolves tt) 1001 (Resolves breaks_after_two)
    2000 (Resolves tt) (Resolves tt) 2001 2002 (Resolves tt).

(** The traces of the two submit paths. *)
Inductive stream_run : list Effect → Prop :=
| socket_run socket data env senv :
    stream_run (calls (stream_message socket data env senv))
| post_run req env :
    stream_run (calls (post_message req env)).

(** Alice submits twice on [c1]; the first session has received one chunk
    when the second submit arrives. *)
Definition two_submits : Node :=
  node_run [Submit alice hello accepted completes; Advance 0;
            Submit alice hello accepted completes] idle.

(** ** The realtime routes

    The routes read [activeUsers] and [typingUsers] through [req.app]. *)

(** [GET /stats], for an admin: [connections.activeUsers],
    [conversations.active] and [conversations.totalTypingUsers]; 403 for
    anyone else.  ([io.engine.clientsCount] and the process figures are the
    runtime's and left out.)  The [reduce] adds up the set sizes, in an
    order that does not matter. *)
Definition stats_route (role : string) (s : Realtime) : Z * option (nat * nat * nat) :=
  if String.eqb role "admin"
  then (200, Some (size (activeUsers s), size (typingUsers s),
                   map_fold (λ _ users sum, sum + size users)%nat 0%nat (typingUsers s)))
  else (403, None).

Definition notification_payload (type : option string) (message : JsVal) (data : JsVal)
    (now : Z) (from : string) : JsVal :=
  JObj [("type", JStr (default "info" type));
        ("message", message);
        ("data", data);
        ("timestamp", JDate now);
        ("from", JStr from)].

(** [POST /notify/:userId]: [type] defaults to ['info'] when the body has
    none; an empty socket id is falsy like a missing one. *)
Definition notify (from target : string) (type : option string) (message data : JsVal)
    (now : Z) (s : Realtime) : list Effect :=
  match activeUsers s !! target with
  | Some targetSocketId =>
      if String.eqb targetSocketId "" then [Respond 404 false]
      else [IoToEmit targetSocketId "notification"
              (notification_payload type message data now from);
            LogInfo "Notification sent";
            Respond 200 true]
  | None => [Respond 404 false]
  end.

(** ** More of the conversation document *)

(** [new Conversation({userId, title: title || 'New Conversation',
    model: model || 'gpt-4o-mini'})] of [POST /conversations]: no messages,
    counters at their default 0. *)
Definition new_conversation (id uid : string) (title_given model_given : option string)
  : Conversation :=
  {| conv_id := id;
     conv_userId := uid;
     conv_model := or_string model_given "gpt-4o-mini";
     title := or_string title_given "New Conversation";
     messages := [];
     totalTokens := 0;
     totalMessages := 0 |}.

(** The in-memory part of [conversationSchema.methods.clearMessages]. *)
Definition clearMessages (this : Conversation) : Conversation :=
  {| conv_id := conv_id this;
     conv_userId := conv_userId this;
     conv_model := conv_model this;
     title := title this;
     messages := [];
     totalTokens := 0;
     totalMessages := 0 |}.

(** The integer figures of [conversationSchema.methods.getStats] (the
    averages are floating-point quotients and left out). *)
Record Stats : Type := mkStats {
  stats_totalMessages : nat;
  stats_userMessages : nat;
  stats_assistantMessages : nat;
  stats_totalTokens : Z
}.

Definition getStats (this : Conversation) : Stats :=
  {| stats_totalMessages := length (messages this);
     stats_userMessages :=
       length (filter (λ msg, role msg = "user") (messages this));
     stats_assistantMessages :=
       length (filter (λ msg, role msg = "assistant") (messages this));
     stats_totalTokens := totalTokens this |}.

(** The two methods that change the message list. *)
Inductive DocumentOp : Type :=
| OpAddMessage (messageData : MessageData)
| OpClearMessages.

Definition apply_op (this : Conversation) (op : DocumentOp) : Conversation :=
  match op with
  | OpAddMessage messageData => addMessage messageData this
  | OpClearMessages => clearMessages this
  end.

Definition sum_tokens (msgs : list Message) : Z :=
  foldr (λ msg acc, tokens msg + acc) 0 msgs.

(** ** Message limits

    [checkMessageLimit] runs before the chat route; it reads the user's
    plan, the monthly counter and the date of its last reset. *)

(** What [resetMonthlyUsage] reads of a [Date]: [getFullYear()] and
    [getMonth()]. *)
Record MonthOfYear : Type := mkMonthOfYear {
  fullYear : Z;
  month : Z
}.

(** A user document with the fields the limit check reads besides
    [usage]: [subscription.plan] and [usage.lastResetDate]. *)
Record Subscriber : Type := mkSubscriber {
  subscriber : User;
  plan : string;
  lastResetDate : MonthOfYear
}.

(** [limits[this.subscription.plan]]: [undefined] for any other plan. *)
Definition plan_limit (p : string) : option Z :=
  if String.eqb p "free" then Some 20
  else if String.eqb p "basic" then Some 100
  else if String.eqb p "premium" then Some 1000
  else None.

(** [userSchema.methods.canSendMessage]; a comparison with [undefined] is
    false. *)
Definition canSendMessage (this : Subscriber) : bool :=
  match plan_limit (plan this) with
  | Some limit => messagesThisMonth (usage (subscriber this)) <? limit
  | None => false
  end.

(** [userSchema.methods.resetMonthlyUsage], with the document it leaves. *)
Definition resetMonthlyUsage (now : MonthOfYear) (this : Subscriber) : Subscriber * bool :=
  if negb (month now =? month (lastResetDate this))
     || negb (fullYear now =? fullYear (lastResetDate this))
  then ({| subscriber :=
             {| user_id := user_id (subscriber this);
                usage := {| messagesThisMonth := 0;
                            usage_totalMessages := usage_totalMessages (usage (subscriber this));
                            usage_totalTokens := usage_totalTokens (usage (subscriber this)) |} |};
           plan := plan this;
           lastResetDate := now |}, true)
  else (this, false).

(** [checkMessageLimit] for an authenticated request: the user document it
    leaves in [req.user], and [None] when it calls [next()], otherwise the
    status it answers with. *)
Definition checkMessageLimit (now : MonthOfYear) (this : Subscriber)
  : Subscriber * option Z :=
  let this' := fst (resetMonthlyUsage now this) in
  if canSendMessage this' then (this', None) else (this', Some 429).

(** The in-memory change of [updateUsage]: one more message this month. *)
Definition count_message (this : Subscriber) : Subscriber :=
  {| subscriber :=
       {| user_id := user_id (subscriber this);
          usage := {| messagesThisMonth := messagesThisMonth (usage (subscriber this)) + 1;
                      usage_totalMessages := usage_totalMessages (usage (subscriber this));
                      usage_totalTokens := usage_totalTokens (usage (subscriber this)) |} |};
     plan := plan this;
     lastResetDate := lastResetDate this |}.

(** ** Failed logins

    The methods build an update for [updateOne]; the model is the
    [security] part of the stored document before and after that update. *)

Record Security : Type := mkSecurity {
  loginAttempts : Z;
  lockUntil : option Z        (* a time in ms; [None] when unset *)
}.

(** [userSchema.methods.isLocked] at time [now]. *)
Definition isLocked (now : Z) (this : Security) : bool :=
  match lockUntil this with
  | Some t => now <? t
  | None => false
  end.

(** [userSchema.methods.incLoginAttempts] at time [now]: an expired lock
    is unset and the count restarts at 1; otherwise the count is
    incremented, and the account locked for two hours when this is at
    least the fifth attempt and it is not locked already.  (The method
    reads the clock at each test; the readings are taken as one.) *)
Definition incLoginAttempts (now : Z) (this : Security) : Security :=
  match lockUntil this with
  | Some t =>
      if t <? now then {| loginAttempts := 1; lockUntil := None |}
      else {| loginAttempts := loginAttempts this + 1;
              lockUntil :=
                if (5 <=? loginAttempts this + 1) && negb (isLocked now this)
                then Some (now + 2 * 60 * 60 * 1000) else Some t |}
  | None =>
      {| loginAttempts := loginAttempts this + 1;
         lockUntil :=
           if (5 <=? loginAttempts this + 1) && negb (isLocked now this)
           then Some (now + 2 * 60 * 60 * 1000) else None |}
  end.

(** [userSchema.methods.resetLoginAttempts]: both fields are unset; the
    count reads as its default 0. *)
Definition resetLoginAttempts (this : Security) : Security :=
  {| loginAttempts := 0; lockUntil := None |}.

(** Failed logins at the given times, oldest first. *)
Definition failed_logins (times : list Z) (this : Security) : Security :=
  foldl (λ doc now, incLoginAttempts now doc) this times.

(** ** Authentication of sockets and requests *)

(** What the middlewares read of the user document they load. *)
Record Account : Type := mkAccount {
  account_id : string;     (* _id.toString() *)
  isActive : bool
}.

(** [s.replace(pattern, replacement)] with a string pattern: the first
    occurrence is replaced, wherever it is. *)
Fixpoint replace_first (pattern replacement s : string) : string :=
  if String.prefix pattern s
  then replacement
         +:+ String.substring (String.length pattern)
               (String.length s - String.length pattern) s
  else match s with
       | EmptyString => EmptyString
       | String c rest => String c (replace_first pattern replacement rest)
       end.

(** A possibly undefined string as a condition: [undefined] and the empty
    string are falsy. *)
Definition truthy (s : option string) : option string :=
  match s with
  | Some t => if String.eqb t "" then None else Some t
  | None => None
  end.

(** [auth.token || headers.authorization?.replace('Bearer ', '')] (for a
    request, [cookies.token] in place of [auth.token]), followed by the
    [if (!token)] test: [None] when there is no token to verify. *)
Definition presented_token (own_token authorization : option string) : option string :=
  match truthy own_token with
  | Some t => Some t
  | None => truthy (replace_first "Bearer " "" <$> authorization)
  end.

Inductive Handshake : Type :=
| Accepted (user : Account)      (* socket.userId, socket.user set; next() *)
| Refused (message : string).    (* next(new Error(message)) *)

Section Authentication.
(** [jwt.verify(token, secret).userId], which throws on a bad token, and
    [User.findById(id)]. *)
Variable verify : string → Outcome string.
Variable findById : string → Outcome (option Account).

(** The [io.use] middleware. *)
Definition authenticate_socket (auth_token authorization : option string) : Handshake :=
  match presented_token auth_token authorization with
  | None => Refused "Authentication error: No token provided"
  | Some token =>
      match verify token with
      | Rejects err => Refused ("Authentication error: " +:+ err)
      | Resolves id =>
          match findById id with
          | Rejects err => Refused ("Authentication error: " +:+ err)
          | Resolves None => Refused "Authentication error: Invalid token or user inactive"
          | Resolves (Some user) =>
              if isActive user then Accepted user
              else Refused "Authentication error: Invalid token or user inactive"
          end
      end
  end.

(** [requireAuth]: the user it puts in [req.user] before [next()], or the
    status and error it answers with. *)
Definition requireAuth (cookie_token authorization : option string)
  : Z * string + Account :=
  match presented_token cookie_token authorization with
  | None => inl (401, "Access denied. No token provided.")
  | Some token =>
      match verify token with
      | Rejects err => inl (401, "Invalid token.")
      | Resolves id =>
          match findById id with
          | Rejects err => inl (401, "Invalid token.")
          | Resolves None => inl (401, "Invalid token or user inactive.")
          | Resolves (Some user) =>
              if isActive user then inr user
              else inl (401, "Invalid token or user inactive.")
          end
      end
  end.
End Authentication.

(** ** Pagination of the conversation list *)

(** [parseInt(x) || d]: [None] is [NaN]; [NaN] and 0 are falsy. *)
Definition or_number (parsed : option Z) (d : Z) : Z :=
  match parsed with
  | Some n => if n =? 0 then d else n
  | None => d
  end.

Record Pagination : Type := mkPagination {
  page : Z;
  limit : Z;
  total : Z;
  pages : Z;
  hasNext : bool;
  hasPrev : bool
}.

(** The [pagination] object of [GET /conversations].  [Math.ceil(total /
    limit)] is the ceiling of the exact quotient (the counts are far below
    the size at which the division would round). *)
Definition pagination (page_query limit_query : option Z) (total_count : Z) : Pagination :=
  let page := or_number page_query 1 in
  let limit := or_number limit_query 20 in
  {| page := page;
     limit := limit;
     total := total_count;
     pages := - ((- total_count) / limit);
     hasNext := page * limit <? total_count;
     hasPrev := 1 <? page |}.

(** ** Further projections of a trace *)

(** The responses sent during a trace: status and [success] flag. *)
Definition responses (trace : list Effect) : list (Z * bool) :=
  omap (λ e, match e with
             | Respond status success => Some (status, success)
             | _ => None
             end) trace.

(** The user documents saved during a trace. *)
Definition usage_saves (trace : list Effect) : list User :=
  omap (λ e, match e with
             | UsageSaved u => Some u
             | _ => None
             end) trace.

(** ** Runs in time

    Sockets join and leave rooms while a run is in progress.  A timeline
    pairs each call of a run with the room membership at the moment the
    call is made. *)

(** The room a call emits to, if it emits to one. *)
Definition effect_room (e : Effect) : option string :=
  match e with
  | SocketToEmit _ room _ _ => Some room
  | IoToEmit room _ _ => Some room
  | _ => None
  end.

(** The events socket [sid] observes from a timeline, in order. *)
Definition observed_at (sid : string) (timeline : list (gmap string (gset string) * Effect))
  : list (string * JsVal) :=
  omap (λ te, receives (fst te) sid (snd te)) timeline.

(** At every call of the timeline that emits to a room, socket [sid] is in
    that room exactly if it is in it under [rooms]: the socket neither joins
    nor leaves a room of the run while the run lasts. *)
Definition steady (sid : string) (rooms : gmap string (gset string))
    (timeline : list (gmap string (gset string) * Effect)) : Prop :=
  Forall (λ te, ∀ room, effect_room (snd te) = Some room →
                  (sid ∈ members (fst te) room ↔ sid ∈ members rooms room))
         timeline.

(** The rooms when Alice has joined [c1] and Bob is connected but has not
    joined yet. *)
Definition rooms_before_bob : gmap string (gset string) :=
  rooms (fst (run [Connection alice; JoinConversation alice "c1"; Connection bob] initial)).

(** Alice's stream on [c1]; Bob joins the room when the first chunk has been
    sent (the first six calls of the run). *)
Definition late_join : list (gmap string (gset string) * Effect) :=
  imap (λ i e, (if (i <? 6)%nat then rooms_before_bob else rooms_joined, e))
       (calls (stream_message alice hello accepted completes)).

(** Alice's stream on [c1], with Alice and Bob in the room throughout;
    Carol connects and joins the room when the first chunk has been sent. *)
Definition carol : Socket := mkSocket "s-carol" "carol" "Carol".

Definition rooms_with_carol : gmap string (gset string) :=
  rooms (fst (run (both_joined ++ [Connection carol; JoinConversation carol "c1"]) initial)).

Definition carol_joins : list (gmap string (gset string) * Effect) :=
  imap (λ i e, (if (i <? 6)%nat then rooms_joined else rooms_with_carol, e))
       (calls (stream_message alice hello accepted completes)).

(** Alice submits twice on [c1]; the two sessions take turns, one chunk
    each, until both have ended. *)
Definition overlapping_runs : Node :=
  node_run [Submit alice hello accepted completes;
            Submit alice hello accepted completes;
            Advance 0; Advance 1; Advance 0; Advance 1;
            Advance 0; Advance 1; Advance 0; Advance 1;
            Advance 0; Advance 0] idle.

(** ** The validated body of the chat route

    The route is mounted behind [validate(schemas.sendMessage)], which
    replaces [req.body] by the validated value. *)

(** The [model] field as [validate] leaves it:
    [Joi.string().valid('gpt-4o-mini', 'gpt-4o', 'gpt-3.5-turbo').default('gpt-4o-mini')].
    [None] is a validation error: the request is answered 400 and the
    handler does not run. *)
Definition sendMessage_model (given : option string) : option string :=
  match given with
  | None => Some "gpt-4o-mini"
  | Some m =>
      if String.eqb m "gpt-4o-mini" then Some m
      else if String.eqb m "gpt-4o" then Some m
      else if String.eqb m "gpt-3.5-turbo" then Some m
      else None
  end.

(** Conversation [c1] when it was created with model [gpt-4o], and a request
    on it whose body named no model before validation. *)
Definition conv1_gpt4o : Conversation :=
  mkConversation "c1" "alice" "gpt-4o" "New Conversation" [] 0 0.

Definition post_completes_gpt4o : PostEnv :=
  mkPostEnv (Resolves (Some conv1_gpt4o)) 1000 (Resolves tt) 1001 (Resolves hi_there)
    2000 (Resolves tt) (Resolves tt) 2001 2002 (Resolves tt).

Definition validated_request : Request :=
  mkRequest alice_user "Alice" "c1" "hello" (sendMessage_model None).


(** ** Proof tactics *)

(** A case analysis on one yielded chunk: skipped (undefined or empty
    content) or forwarded. *)
Tactic Notation "chunk_cases" constr(c) "as" ident(content) ident(Hne) :=
  destruct c as [content|];
  [destruct (decide (content = "")) as [->|Hne]|].

(** Decide what a socket receives from a list of explicit calls. *)
Ltac seen :=
  unfold chunks_seen, completions_seen, observed, events_named, calls;
  simpl; repeat case_decide; simpl; try done.

(** * Properties *)

(** ** The typing map *)

Section TypingMap.
Implicit Types (typing : gmap string (gset string)) (users : gset string).

Lemma remove_typing_nonempty c uid users typing :
  typing_sets_nonempty typing →
  typing_sets_nonempty (remove_typing c uid users typing).
Proof.
  intros Hinv c' users'. unfold remove_typing.
  case_decide as Hsz.
  - intros Hl. apply lookup_delete_Some in Hl as [_ Hl]. by eapply Hinv.
  - intros Hl. apply lookup_insert_Some in Hl as [[_ <-]|[_ Hl]].
    + intros Hemp. apply Hsz. rewrite Hemp. apply size_empty.
    + by eapply Hinv.
Qed.

Lemma remove_typing_lookup c uid users typing :
  typing !! c = Some users →
  default ∅ (remove_typing c uid users typing !! c) = users ∖ {[uid]}.
Proof.
  intros _. unfold remove_typing. case_decide as Hsz.
  - rewrite lookup_delete_eq. simpl. apply size_empty_inv in Hsz.
    symmetry. by apply leibniz_equiv.
  - by rewrite lookup_insert_eq.
Qed.

Lemma remove_typing_other c c' uid users typing :
  c ≠ c' → remove_typing c uid users typing !! c' = typing !! c'.
Proof.
  intros Hne. unfold remove_typing. case_decide.
  - by rewrite lookup_delete_ne.
  - by rewrite lookup_insert_ne.
Qed.

Lemma disconnect_entry_nonempty uid typing :
  typing_sets_nonempty typing →
  typing_sets_nonempty (omap (disconnect_entry uid) typing).
Proof.
  intros Hinv c users'. rewrite lookup_omap.
  destruct (typing !! c) as [users|] eqn:Hl; simpl; [|done].
  unfold disconnect_entry. case_decide.
  - case_decide as Hsz; [done|]. intros [= <-] Hemp.
    apply Hsz. rewrite Hemp. apply size_empty.
  - intros [= <-]. by eapply Hinv.
Qed.

Lemma handle_typing_nonempty ev s :
  typing_sets_nonempty (typingUsers s) →
  typing_sets_nonempty (typingUsers (fst (handle ev s))).
Proof.
  intros Hinv. destruct ev as [sock|sock c|sock c|sock c|sock c|sock]; simpl.
  - done.
  - done.
  - unfold leave_conversation.
    destruct (typingUsers s !! c) eqn:Hl; simpl; [|done].
    by apply remove_typing_nonempty.
  - intros c' users'. rewrite lookup_insert.
    case_decide.
    + intros [= <-]. set_solver.
    + destruct (typingUsers s !! c) eqn:Hl; [by apply Hinv|].
      rewrite lookup_insert_ne; [by apply Hinv|done].
  - unfold typing_stop.
    destruct (typingUsers s !! c) eqn:Hl; simpl; [|done].
    by apply remove_typing_nonempty.
  - by apply disconnect_entry_nonempty.
Qed.

Lemma run_typing_nonempty evs s :
  typing_sets_nonempty (typingUsers s) →
  typing_sets_nonempty (typingUsers (fst (run evs s))).
Proof.
  revert s. induction evs as [|ev rest IH]; intros s Hinv; simpl; [done|].
  pose proof (handle_typing_nonempty ev s Hinv) as H1.
  destruct (handle ev s) as [s1 out1]. simpl in H1.
  specialize (IH s1 H1). destruct (run rest s1) as [s2 out2]. done.
Qed.
End TypingMap.

(** C10.  In every state the server can reach from its start by handling
    client events, no room key of [typingUsers] is bound to an empty set,
    and so a room has typing users ([typingUsers.has(id)], as the status
    route reads it) exactly when some user is in its typing set. *)
Theorem typing_key_present_iff_nonempty (s : Realtime) (c : string) :
  reachable s →
  (∀ users, typingUsers s !! c = Some users → users ≠ ∅) ∧
  (hasTypingUsers c s = true ↔ ∃ uid, uid ∈ typingUsersList c s).
Proof.
  intros [evs <-].
  assert (Hinv : typing_sets_nonempty (typingUsers (fst (run evs initial)))).
  { apply run_typing_nonempty. intros c' users'. simpl. by rewrite lookup_empty. }
  split; [intros users; apply Hinv|].
  unfold hasTypingUsers, typingUsersList. rewrite bool_decide_eq_true.
  split.
  - intros [users Hl]. rewrite Hl. simpl.
    apply set_choose_L. by eapply Hinv.
  - intros [uid Hin]. destruct (typingUsers _ !! c); [done|]. set_solver.
Qed.

Lemma typing_key_present_iff_nonempty_witness :
  (∀ users,
     typingUsers (fst (run (both_joined ++ [TypingStart alice "c1"]) initial)) !! "c1"
       = Some users → users ≠ ∅) ∧
  (hasTypingUsers "c1" (fst (run (both_joined ++ [TypingStart alice "c1"]) initial)) = true
   ↔ ∃ uid, uid ∈ typingUsersList "c1"
               (fst (run (both_joined ++ [TypingStart alice "c1"]) initial))).
Proof.
  apply (typing_key_present_iff_nonempty
           (fst (run (both_joined ++ [TypingStart alice "c1"]) initial)) "c1").
  exists (both_joined ++ [TypingStart alice "c1"]). reflexivity.
Defined.

(** ** [typing-stop] *)

Lemma typing_stop_absent_room sock c s :
  typingUsers s !! c = None → typing_stop sock c s = (s, []).
Proof. intros Hl. unfold typing_stop. by rewrite Hl. Qed.

Lemma typing_stop_present sock c s :
  userId sock ∈ typingUsersList c s →
  (userId sock ∉ typingUsersList c (fst (typing_stop sock c s))) ∧
  typing_stopped_count (userId sock) (snd (typing_stop sock c s)) = 1%nat.
Proof.
  unfold typingUsersList, typing_stop.
  destruct (typingUsers s !! c) as [users|] eqn:Hl; simpl;
    [|intros Hin; by apply not_elem_of_empty in Hin].
  intros Hin. split.
  - rewrite (remove_typing_lookup _ _ _ _ Hl). set_solver.
  - unfold typing_stopped_count. rewrite filter_cons_True; [done|].
    unfold is_typing_stopped. simpl. by rewrite String.eqb_refl.
Qed.

Lemma typing_stop_state_unchanged sock c s :
  typing_sets_nonempty (typingUsers s) →
  userId sock ∉ typingUsersList c s →
  fst (typing_stop sock c s) = s.
Proof.
  intros Hinv. unfold typingUsersList, typing_stop.
  destruct (typingUsers s !! c) as [users|] eqn:Hl; simpl; [|done].
  intros Hnin. destruct s as [au us ty rs]. simpl in *. f_equal.
  unfold remove_typing.
  assert (users ∖ {[userId sock]} = users) as -> by set_solver.
  case_decide as Hsz.
  - apply size_empty_inv in Hsz. apply leibniz_equiv in Hsz.
    by destruct (Hinv c users Hl).
  - by apply insert_id.
Qed.

(** The state in which Bob alone is typing in [c1]. *)
Lemma bob_typing_state :
  typingUsersList "c1" (fst (run (both_joined ++ [TypingStart bob "c1"]) initial))
  = {[ "bob" ]}.
Proof. vm_compute. reflexivity. Qed.

(** C4 (evaluation at the failing input).  Bob alone is typing in [c1];
    Alice, who has no typing entry there, sends [typing-stop]: the handler
    tests only that the room has a typing set, so it broadcasts
    [typing-stopped] for Alice, and Bob receives it.  The disconnect handler
    tests [users.has(socket.userId)] and emits nothing in the same state. *)
Theorem typing_stop_absent_user_still_broadcasts :
  let s := fst (run (both_joined ++ [TypingStart bob "c1"]) initial) in
  ("alice" ∉ typingUsersList "c1" s) ∧
  fst (typing_stop alice "c1" s) = s ∧
  snd (typing_stop alice "c1" s)
    = [SocketToEmit "s-alice" "conversation:c1" "typing-stopped" (typing_payload "c1" alice)] ∧
  observed (rooms s) "s-bob" (snd (typing_stop alice "c1" s))
    = [("typing-stopped", typing_payload "c1" alice)] ∧
  snd (disconnect alice s) = [].
Proof.
  cbv zeta. split; [|split; [|split; [|split]]].
  - rewrite bob_typing_state. set_solver.
  - apply typing_stop_state_unchanged.
    + apply run_typing_nonempty. intros c users. simpl. by rewrite lookup_empty.
    + rewrite bob_typing_state. set_solver.
  - vm_compute. reflexivity.
  - vm_compute. reflexivity.
  - vm_compute. reflexivity.
Qed.

(** ** Typing entries are only removed by the user's own events *)











(** ** The connection registry *)

(** C8, as amended.  Online status is read from [activeUsers], which holds
    at most one handle per user.  Connecting a handle, in any state, records that
    handle as the user's in [activeUsers] (in place of the one recorded
    before), registers it in [userSockets] and marks the user online.  A
    user whose recorded handle disconnects was online and is offline
    afterwards, whether or not other handles of the user remain; every
    other handle stays registered in [userSockets] and in its rooms. *)
Theorem disconnect_recorded_handle (sock : Socket) (s : Realtime) :
  (activeUsers (fst (connection sock s)) !! userId sock = Some (socket_id sock) ∧
   userSockets (fst (connection sock s)) !! socket_id sock = Some (userId sock) ∧
   isConnected (userId sock) (fst (connection sock s)) = true) ∧
  (activeUsers s !! userId sock = Some (socket_id sock) →
   isConnected (userId sock) s = true ∧
   isConnected (userId sock) (fst (disconnect sock s)) = false) ∧
  (∀ sid, sid ≠ socket_id sock →
     userSockets (fst (disconnect sock s)) !! sid = userSockets s !! sid ∧
     ∀ room, sid ∈ members (rooms s) room →
             sid ∈ members (rooms (fst (disconnect sock s))) room).
Proof.
  split; [|split].
  - unfold isConnected. simpl. rewrite !lookup_insert_eq. split; [done|].
    split; [done|]. by apply bool_decide_eq_true.
  - intros Hrec. split.
    + unfold isConnected. rewrite Hrec. by apply bool_decide_eq_true.
    + unfold isConnected. simpl. rewrite lookup_delete_eq.
      apply bool_decide_eq_false. by intros [? ?].
  - intros sid Hne. simpl. split; [by rewrite lookup_delete_ne|].
    intros room. unfold members. rewrite lookup_fmap.
    destruct (rooms s !! room); simpl; set_solver.
Qed.

Lemma disconnect_recorded_handle_witness :
  (activeUsers (fst (connection alice_tab2 (fst (run [Connection alice] initial))))
     !! "alice" = Some "s-alice-2" ∧
   userSockets (fst (connection alice_tab2 (fst (run [Connection alice] initial))))
     !! "s-alice-2" = Some "alice" ∧
   isConnected "alice" (fst (connection alice_tab2 (fst (run [Connection alice] initial))))
   = true) ∧
  (isConnected "alice" (fst (run [Connection alice; Connection alice_tab2] initial)) = true ∧
   isConnected "alice"
     (fst (disconnect alice_tab2
             (fst (run [Connection alice; Connection alice_tab2] initial)))) = false) ∧
  (∀ sid, sid ≠ "s-alice-2" →
     userSockets (fst (disconnect alice_tab2
                         (fst (run [Connection alice; Connection alice_tab2] initial))))
       !! sid
     = userSockets (fst (run [Connection alice; Connection alice_tab2] initial)) !! sid ∧
     ∀ room,
       sid ∈ members (rooms (fst (run [Connection alice; Connection alice_tab2] initial)))
               room →
       sid ∈ members
               (rooms (fst (disconnect alice_tab2
                              (fst (run [Connection alice; Connection alice_tab2]
                                      initial))))) room).
Proof.
  split; [|split].
  - exact (proj1 (disconnect_recorded_handle alice_tab2
                    (fst (run [Connection alice] initial)))).
  - apply (proj1 (proj2 (disconnect_recorded_handle alice_tab2
                           (fst (run [Connection alice; Connection alice_tab2] initial))))).
    vm_compute. reflexivity.
  - exact (proj2 (proj2 (disconnect_recorded_handle alice_tab2
                           (fst (run [Connection alice; Connection alice_tab2] initial))))).
Defined.

(** C8, counterexample.  Alice holds two handles; the second one
    disconnects.  The first is still registered in [userSockets], yet Alice
    is reported offline. *)
Lemma two_handles_one_disconnect_counterexample :
  userSockets (fst (run [Connection alice; Connection alice_tab2; Disconnect alice_tab2]
                      initial)) !! "s-alice" = Some "alice" ∧
  isConnected "alice"
    (fst (run [Connection alice; Connection alice_tab2; Disconnect alice_tab2] initial))
  = false.
Proof. split; vm_compute; reflexivity. Qed.

(** ** The streaming loops *)

Lemma append_cons x (a b : string) : String x a +:+ b = String x (a +:+ b).
Proof. reflexivity. Qed.

Lemma append_assoc (a b c : string) : (a +:+ b) +:+ c = a +:+ (b +:+ c).
Proof. induction a as [|x a IH]; [done|]. by rewrite !append_cons, IH. Qed.

Lemma append_empty_r (a : string) : a +:+ "" = a.
Proof. induction a as [|x a IH]; [done|]. by rewrite append_cons, IH. Qed.

Lemma texts_cons_truthy content cs :
  content ≠ "" → texts (Some content :: cs) = content :: texts cs.
Proof.
  intros Hne. unfold texts. simpl.
  destruct (String.eqb_spec content ""); done.
Qed.

Lemma texts_cons_empty cs : texts (Some "" :: cs) = texts cs.
Proof. reflexivity. Qed.

Lemma texts_cons_undefined cs : texts (None :: cs) = texts cs.
Proof. reflexivity. Qed.

Lemma for_await_cons socket conversation buf c rest :
  for_await socket conversation buf (c :: rest)
  = (fst (for_await socket conversation (fst (on_chunk socket conversation buf c)) rest),
     snd (on_chunk socket conversation buf c)
       ++ snd (for_await socket conversation (fst (on_chunk socket conversation buf c)) rest)).
Proof.
  simpl. destruct (on_chunk socket conversation buf c) as [buf1 out1]. simpl.
  by destruct (for_await socket conversation buf1 rest).
Qed.

Lemma post_for_await_cons conversation buf c rest :
  post_for_await conversation buf (c :: rest)
  = (fst (post_for_await conversation (fst (post_on_chunk conversation buf c)) rest),
     snd (post_on_chunk conversation buf c)
       ++ snd (post_for_await conversation (fst (post_on_chunk conversation buf c)) rest)).
Proof.
  simpl. destruct (post_on_chunk conversation buf c) as [buf1 out1]. simpl.
  by destruct (post_for_await conversation buf1 rest).
Qed.

Lemma on_chunk_forward socket conversation buf content :
  content ≠ "" →
  on_chunk socket conversation buf (Some content)
  = ({| fullResponse := fullResponse buf +:+ content; tokenCount := tokenCount buf + 1 |},
     [SocketEmit (socket_id socket) "ai-stream-chunk" (chunk_payload conversation content);
      SocketToEmit (socket_id socket) (conversation_room (conv_id conversation))
        "ai-stream-chunk" (chunk_payload conversation content)]).
Proof. intros Hne. unfold on_chunk. by destruct (String.eqb_spec content ""). Qed.

Lemma post_on_chunk_forward conversation buf content :
  content ≠ "" →
  post_on_chunk conversation buf (Some content)
  = ({| fullResponse := fullResponse buf +:+ content; tokenCount := tokenCount buf + 1 |},
     [IoToEmit (conversation_room (conv_id conversation)) "ai-stream-chunk"
        (chunk_payload conversation content)]).
Proof. intros Hne. unfold post_on_chunk. by destruct (String.eqb_spec content ""). Qed.

(** The loop of [streamAIResponse] appends every forwarded increment to
    [fullResponse], in order, and counts it. *)
Lemma for_await_buffer socket conversation buf cs :
  fullResponse (fst (for_await socket conversation buf cs))
    = fullResponse buf +:+ concat_texts (texts cs) ∧
  tokenCount (fst (for_await socket conversation buf cs))
    = tokenCount buf + Z.of_nat (length (texts cs)).
Proof.
  revert buf. induction cs as [|c rest IH]; intros buf.
  - simpl. rewrite append_empty_r. split; [done|lia].
  - rewrite for_await_cons. cbn [fst]. chunk_cases c as content Hne.
    + rewrite texts_cons_empty. apply IH.
    + rewrite on_chunk_forward, texts_cons_truthy by done. cbn [fst].
      destruct (IH {| fullResponse := fullResponse buf +:+ content;
                      tokenCount := tokenCount buf + 1 |}) as [-> ->].
      cbn [fst fullResponse tokenCount concat_texts foldr length].
      rewrite append_assoc. split; [done|lia].
    + rewrite texts_cons_undefined. apply IH.
Qed.

Lemma post_for_await_buffer conversation buf cs :
  fullResponse (fst (post_for_await conversation buf cs))
    = fullResponse buf +:+ concat_texts (texts cs) ∧
  tokenCount (fst (post_for_await conversation buf cs))
    = tokenCount buf + Z.of_nat (length (texts cs)).
Proof.
  revert buf. induction cs as [|c rest IH]; intros buf.
  - simpl. rewrite append_empty_r. split; [done|lia].
  - rewrite post_for_await_cons. cbn [fst]. chunk_cases c as content Hne.
    + rewrite texts_cons_empty. apply IH.
    + rewrite post_on_chunk_forward, texts_cons_truthy by done. cbn [fst].
      destruct (IH {| fullResponse := fullResponse buf +:+ content;
                      tokenCount := tokenCount buf + 1 |}) as [-> ->].
      cbn [fst fullResponse tokenCount concat_texts foldr length].
      rewrite append_assoc. split; [done|lia].
    + rewrite texts_cons_undefined. apply IH.
Qed.

Lemma observed_app rooms m out1 out2 :
  observed rooms m (out1 ++ out2) = observed rooms m out1 ++ observed rooms m out2.
Proof. unfold observed. apply omap_app. Qed.

(** Each forwarded increment reaches the submitter and every room member
    exactly once, with the same payload, in the order of the stream. *)
Lemma for_await_observed rooms m socket conversation buf cs :
  observed rooms m (snd (for_await socket conversation buf cs))
  = if decide (reached rooms socket conversation m)
    then (λ t, ("ai-stream-chunk", chunk_payload conversation t)) <$> texts cs
    else [].
Proof.
  revert buf. induction cs as [|c rest IH]; intros buf.
  - simpl. by case_decide.
  - rewrite for_await_cons. cbn [snd]. rewrite observed_app, IH.
    chunk_cases c as content Hne.
    + by rewrite texts_cons_empty.
    + rewrite on_chunk_forward, texts_cons_truthy by done.
      unfold observed, reached. simpl.
      repeat case_decide; simpl; try done; naive_solver.
    + by rewrite texts_cons_undefined.
Qed.

Lemma post_for_await_observed rooms m conversation buf cs :
  observed rooms m (snd (post_for_await conversation buf cs))
  = if decide (m ∈ members rooms (conversation_room (conv_id conversation)))
    then (λ t, ("ai-stream-chunk", chunk_payload conversation t)) <$> texts cs
    else [].
Proof.
  revert buf. induction cs as [|c rest IH]; intros buf.
  - simpl. by case_decide.
  - rewrite post_for_await_cons. cbn [snd]. rewrite observed_app, IH.
    chunk_cases c as content Hne.
    + by rewrite texts_cons_empty.
    + rewrite post_on_chunk_forward, texts_cons_truthy by done.
      unfold observed. simpl. repeat case_decide; simpl; done.
    + by rewrite texts_cons_undefined.
Qed.

(** ** The calls of the handlers, branch by branch *)

Lemma try_catch_calls {A : Type} (body : Task A) (handler : string → Task A) :
  calls (try_catch body handler)
  = calls body ++ match snd body with
                  | inl err => calls (handler err)
                  | inr _ => []
                  end.
Proof. destruct body as [out [err|a]]; simpl; [done|]. by rewrite app_nil_r. Qed.

Lemma stream_end_calls socket conversation model senv buf :
  calls (try_catch (stream_end socket conversation model senv buf)
           (stream_catch socket conversation))
  = after_loop socket conversation model senv buf.
Proof.
  unfold stream_end, save_message, after_loop, calls.
  destruct (save_assistant senv) as [[]|e1]; [|done].
  destruct (findById_result senv) as [[u|]|e2]; [|done..].
  destruct (save_usage senv) as [[]|e3]; done.
Qed.

Lemma streamAIResponse_calls socket conversation model senv :
  calls (streamAIResponse socket conversation model senv)
  = [SocketToEmit (socket_id socket) (conversation_room (conv_id conversation))
       "ai-typing-start" (typing_ai_payload conversation);
     ProviderCall (or_string model (conv_model conversation)) (history conversation)]
    ++ match create_result senv with
       | Rejects err => calls (stream_catch socket conversation err)
       | Resolves stream =>
           snd (for_await socket conversation (mkBuffer "" 0) (chunks stream))
           ++ match throws stream with
              | Some err => calls (stream_catch socket conversation err)
              | None =>
                  after_loop socket conversation model senv
                    (fst (for_await socket conversation (mkBuffer "" 0) (chunks stream)))
              end
       end.
Proof.
  unfold streamAIResponse, stream_begin, stream_consume.
  destruct (create_result senv) as [[cs [e|]]|e];
    rewrite <- ?stream_end_calls; unfold calls;
    cbn -[for_await stream_end stream_catch]; [done| |done].
  destruct (stream_end _ _ _ _ _) as [out [err|[]]]; simpl.
  - by rewrite <- app_assoc.
  - done.
Qed.

(** [streamAIResponse] catches whatever its body throws. *)
Lemma streamAIResponse_returns socket conversation model senv :
  snd (streamAIResponse socket conversation model senv) = inr tt.
Proof.
  unfold streamAIResponse, stream_begin, stream_consume.
  destruct (create_result senv) as [[cs [e|]]|e];
    cbn -[for_await stream_end stream_catch]; [done| |done].
  destruct (stream_end _ _ _ _ _) as [out [err|[]]]; done.
Qed.

Lemma stream_message_calls socket data env senv :
  calls (stream_message socket data env senv)
  = match findOne_result env with
    | Rejects err => calls (stream_message_catch socket err)
    | Resolves None => [SocketEmit (socket_id socket) "error" not_found_payload]
    | Resolves (Some conversation) =>
        match save_user_message env with
        | Rejects err => calls (stream_message_catch socket err)
        | Resolves _ =>
            [Persisted (conv_id conversation)
               (new_message (user_message_data data conversation) conversation);
             IoToEmit (conversation_room (data_conversationId data)) "message-sent"
               (message_sent_payload (data_conversationId data) (data_message data)
                  (userId socket) (username socket) (now_sent env))]
            ++ calls (streamAIResponse socket
                        (addMessage (user_message_data data conversation) conversation)
                        (data_model data) senv)
        end
    end.
Proof.
  unfold stream_message, stream_message_accept, save_message, calls.
  destruct (findOne_result env) as [[conversation|]|e1]; [|done..].
  destruct (save_user_message env) as [[]|e2]; [|done].
  cbn -[streamAIResponse addMessage].
  pose proof (streamAIResponse_returns socket
                (addMessage (user_message_data data conversation) conversation)
                (data_model data) senv) as Hret.
  unfold user_message_data in *.
  destruct (streamAIResponse _ _ _ _) as [out r]. simpl in Hret. by subst r.
Qed.

Lemma post_catch_calls req conversation env err :
  calls (post_catch req conversation env err)
  = [LogWarn "OpenAI API error";
     IoToEmit (conversation_room (conv_id conversation)) "ai-stream-error"
       (stream_error_payload conversation "Failed to generate response");
     IoToEmit (conversation_room (conv_id conversation)) "ai-typing-stop"
       (conversation_only_payload conversation)]
    ++ match post_save_error_message env with
       | Resolves _ =>
           [Persisted (conv_id conversation)
              (new_message (error_message_data env err) conversation);
            Respond 500 false]
       | Rejects _ => []
       end.
Proof.
  unfold post_catch, save_message, calls.
  by destruct (post_save_error_message env) as [[]|e].
Qed.

Lemma updateUsage_returns user saved : snd (updateUsage user saved) = inr tt.
Proof. by destruct saved as [[]|e]. Qed.

Lemma post_message_calls req env :
  calls (post_message req env)
  = match post_findOne env with
    | Rejects _ => []
    | Resolves None => [Respond 404 false]
    | Resolves (Some conversation) =>
        match post_save_user_message env with
        | Rejects err => calls (post_catch req conversation env err)
        | Resolves _ =>
            [Persisted (conv_id conversation)
               (new_message (post_user_message_data req conversation) conversation);
             IoToEmit (conversation_room (conv_id conversation)) "message-sent"
               (message_sent_payload (conv_id conversation) (body_message req)
                  (user_id (req_user req)) (req_username req) (post_now_sent env));
             IoToEmit (conversation_room (conv_id conversation)) "ai-typing-start"
               (typing_ai_payload conversation);
             ProviderCall (or_string (body_model req) (conv_model conversation))
               (history (addMessage (post_user_message_data req conversation) conversation))]
            ++ match post_create env with
               | Rejects err => calls (post_catch req conversation env err)
               | Resolves stream =>
                   snd (post_for_await conversation (mkBuffer "" 0) (chunks stream))
                   ++ match throws stream with
                      | Some err => calls (post_catch req conversation env err)
                      | None =>
                          post_after_loop req conversation env
                            (fst (post_for_await conversation (mkBuffer "" 0)
                                    (chunks stream)))
                      end
               end
        end
    end.
Proof.
  unfold post_message.
  destruct (post_findOne env) as [[conversation|]|e0]; [|done..].
  transitivity (calls (try_catch (post_try req conversation env)
                         (post_catch req conversation env))); [done|].
  rewrite try_catch_calls.
  unfold post_try, save_message, post_consume, post_after_loop.
  destruct (post_save_user_message env) as [[]|e1]; [|done].
  destruct (post_create env) as [[cs [e2|]]|e3];
    [cbn -[post_for_await post_catch addMessage]; by rewrite <- ?app_assoc
    | |done].
  destruct (post_save_assistant env) as [[]|e4];
    [|cbn -[post_for_await post_catch addMessage]; by rewrite <- ?app_assoc].
  pose proof (updateUsage_returns (req_user req) (post_save_usage env)) as Hret.
  destruct (updateUsage _ _) as [out r]. simpl in Hret. subst r.
  cbn -[post_for_await post_catch addMessage new_message].
  rewrite app_nil_r. reflexivity.
Qed.

(** ** What a socket sees of a stream *)

Lemma events_named_app name evs1 evs2 :
  events_named name (evs1 ++ evs2) = events_named name evs1 ++ events_named name evs2.
Proof. unfold events_named. apply omap_app. Qed.

Lemma chunks_seen_app rooms m out1 out2 :
  chunks_seen rooms m (out1 ++ out2) = chunks_seen rooms m out1 ++ chunks_seen rooms m out2.
Proof. unfold chunks_seen. by rewrite observed_app, events_named_app. Qed.

Lemma completions_seen_app rooms m out1 out2 :
  completions_seen rooms m (out1 ++ out2)
  = completions_seen rooms m out1 ++ completions_seen rooms m out2.
Proof. unfold completions_seen. by rewrite observed_app, events_named_app. Qed.

Lemma events_named_chunks conversation (ts : list string) :
  events_named "ai-stream-chunk"
    ((λ t, ("ai-stream-chunk", chunk_payload conversation t)) <$> ts)
  = chunk_payload conversation <$> ts.
Proof. induction ts as [|t ts IH]; [done|]. simpl. by f_equal. Qed.

Lemma events_named_complete_chunks conversation (ts : list string) :
  events_named "ai-stream-complete"
    ((λ t, ("ai-stream-chunk", chunk_payload conversation t)) <$> ts) = [].
Proof. induction ts as [|t ts IH]; [done|]. simpl. exact IH. Qed.

Lemma chunk_text_payloads conversation (ts : list string) :
  chunk_text <$> (chunk_payload conversation <$> ts) = ts.
Proof. induction ts as [|t ts IH]; [done|]. simpl. by f_equal. Qed.

Lemma chunks_seen_for_await rooms m socket conversation buf cs :
  chunks_seen rooms m (snd (for_await socket conversation buf cs))
  = if decide (reached rooms socket conversation m)
    then chunk_payload conversation <$> texts cs else [].
Proof.
  unfold chunks_seen. rewrite for_await_observed.
  case_decide; [apply events_named_chunks|done].
Qed.

Lemma completions_seen_for_await rooms m socket conversation buf cs :
  completions_seen rooms m (snd (for_await socket conversation buf cs)) = [].
Proof.
  unfold completions_seen. rewrite for_await_observed.
  case_decide; [apply events_named_complete_chunks|done].
Qed.

Lemma chunks_seen_post_for_await rooms m conversation buf cs :
  chunks_seen rooms m (snd (post_for_await conversation buf cs))
  = if decide (m ∈ members rooms (conversation_room (conv_id conversation)))
    then chunk_payload conversation <$> texts cs else [].
Proof.
  unfold chunks_seen. rewrite post_for_await_observed.
  case_decide; [apply events_named_chunks|done].
Qed.

Lemma completions_seen_post_for_await rooms m conversation buf cs :
  completions_seen rooms m (snd (post_for_await conversation buf cs)) = [].
Proof.
  unfold completions_seen. rewrite post_for_await_observed.
  case_decide; [apply events_named_complete_chunks|done].
Qed.

Lemma seen_stream_catch rooms m socket conversation err :
  chunks_seen rooms m (calls (stream_catch socket conversation err)) = [] ∧
  completions_seen rooms m (calls (stream_catch socket conversation err)) = [].
Proof. split; seen. Qed.

Lemma chunks_seen_after_loop rooms m socket conversation model senv buf :
  chunks_seen rooms m (after_loop socket conversation model senv buf) = [].
Proof.
  unfold after_loop.
  destruct (save_assistant senv) as [[]|e1]; [|seen].
  destruct (findById_result senv) as [[u|]|e2]; [|seen..].
  destruct (save_usage senv) as [[]|e3]; seen.
Qed.

(** A completion event that [m] receives carries the buffer's text, and [m]
    is the submitter or a room member. *)
Lemma completions_seen_after_loop rooms m socket conversation model senv buf p :
  p ∈ completions_seen rooms m (after_loop socket conversation model senv buf) →
  message_content p = fullResponse buf ∧ reached rooms socket conversation m.
Proof.
  unfold after_loop, reached.
  destruct (save_assistant senv) as [[]|e1]; [|seen; by intros ?%elem_of_nil].
  destruct (findById_result senv) as [[u|]|e2];
    [destruct (save_usage senv) as [[]|e3]|..].
  all: seen.
  all: try (intros ?%elem_of_nil; done).
  all: try (intros ->%list_elem_of_singleton; split; [done|]; naive_solver).
  all: naive_solver.
Qed.

Lemma seen_post_catch rooms m req conversation env err :
  chunks_seen rooms m (calls (post_catch req conversation env err)) = [] ∧
  completions_seen rooms m (calls (post_catch req conversation env err)) = [].
Proof.
  rewrite post_catch_calls.
  destruct (post_save_error_message env) as [[]|e]; split; seen.
Qed.

Lemma chunks_seen_post_after_loop rooms m req conversation env buf :
  chunks_seen rooms m (post_after_loop req conversation env buf) = [].
Proof.
  unfold post_after_loop.
  destruct (post_save_assistant env) as [[]|e1]; [|apply seen_post_catch].
  destruct (post_save_usage env) as [[]|e2]; seen.
Qed.

Lemma completions_seen_post_after_loop rooms m req conversation env buf p :
  p ∈ completions_seen rooms m (post_after_loop req conversation env buf) →
  message_content p = fullResponse buf ∧
  m ∈ members rooms (conversation_room (conv_id conversation)).
Proof.
  unfold post_after_loop.
  destruct (post_save_assistant env) as [[]|e1];
    [|rewrite (proj2 (seen_post_catch _ _ _ _ _ _)); by intros ?%elem_of_nil].
  destruct (post_save_usage env) as [[]|e2]; seen.
  all: try (intros ?%elem_of_nil; done).
  all: intros ->%list_elem_of_singleton; done.
Qed.

(** A socket that receives the completion of a [stream-message] run has
    received exactly the forwarded increments, whose texts concatenate to
    the completed message. *)
Lemma socket_roundtrip rooms m socket data env senv p :
  p ∈ completions_seen rooms m (calls (stream_message socket data env senv)) →
  concat_texts (chunk_text <$> chunks_seen rooms m (calls (stream_message socket data env senv)))
  = message_content p.
Proof.
  rewrite stream_message_calls.
  destruct (findOne_result env) as [[conversation|]|e1];
    [|seen; by intros ?%elem_of_nil..].
  destruct (save_user_message env) as [[]|e2]; [|seen; by intros ?%elem_of_nil].
  rewrite streamAIResponse_calls.
  set (conversation' := addMessage _ conversation).
  rewrite !chunks_seen_app, !completions_seen_app.
  assert (Hpre1 : ∀ e1 e2 : Effect,
             e1 = Persisted (conv_id conversation)
                    (new_message (user_message_data data conversation) conversation) →
             e2 = IoToEmit (conversation_room (data_conversationId data)) "message-sent"
                    (message_sent_payload (data_conversationId data) (data_message data)
                       (userId socket) (username socket) (now_sent env)) →
             chunks_seen rooms m [e1; e2] = [] ∧ completions_seen rooms m [e1; e2] = []).
  { intros ?? -> ->. split; seen. }
  destruct (Hpre1 _ _ eq_refl eq_refl) as [-> ->]. clear Hpre1.
  assert (Hpre2 : ∀ e1 e2 : Effect,
             e1 = SocketToEmit (socket_id socket) (conversation_room (conv_id conversation'))
                    "ai-typing-start" (typing_ai_payload conversation') →
             e2 = ProviderCall (or_string (data_model data) (conv_model conversation'))
                    (history conversation') →
             chunks_seen rooms m [e1; e2] = [] ∧ completions_seen rooms m [e1; e2] = []).
  { intros ?? -> ->. split; seen. }
  destruct (Hpre2 _ _ eq_refl eq_refl) as [-> ->]. clear Hpre2.
  rewrite !app_nil_l.
  destruct (create_result senv) as [[cs [e3|]]|e4]; cbn [throws chunks].
  - rewrite completions_seen_app, completions_seen_for_await.
    rewrite (proj2 (seen_stream_catch _ _ _ _ _)). by intros ?%elem_of_nil.
  - rewrite chunks_seen_app, completions_seen_app, completions_seen_for_await,
      chunks_seen_for_await, chunks_seen_after_loop, app_nil_r, app_nil_l.
    intros [Hp Hreach]%completions_seen_after_loop.
    rewrite decide_True by done. rewrite chunk_text_payloads, Hp.
    by rewrite (proj1 (for_await_buffer _ _ _ _)).
  - rewrite (proj2 (seen_stream_catch _ _ _ _ _)). by intros ?%elem_of_nil.
Qed.

Lemma post_roundtrip rooms m req env p :
  p ∈ completions_seen rooms m (calls (post_message req env)) →
  concat_texts (chunk_text <$> chunks_seen rooms m (calls (post_message req env)))
  = message_content p.
Proof.
  rewrite post_message_calls.
  destruct (post_findOne env) as [[conversation|]|e0];
    [|seen; by intros ?%elem_of_nil..].
  destruct (post_save_user_message env) as [[]|e1];
    [|rewrite (proj2 (seen_post_catch _ _ _ _ _ _)); by intros ?%elem_of_nil].
  rewrite !chunks_seen_app, !completions_seen_app.
  match goal with
  | |- _ ∈ completions_seen _ _ ?pre ++ _ → _ =>
      assert (chunks_seen rooms m pre = [] ∧ completions_seen rooms m pre = [])
        as [-> ->] by (split; seen)
  end.
  rewrite !app_nil_l.
  destruct (post_create env) as [[cs [e3|]]|e4]; cbn [throws chunks].
  - rewrite completions_seen_app, completions_seen_post_for_await.
    rewrite (proj2 (seen_post_catch _ _ _ _ _ _)). by intros ?%elem_of_nil.
  - rewrite chunks_seen_app, completions_seen_app, completions_seen_post_for_await,
      chunks_seen_post_for_await, chunks_seen_post_after_loop, app_nil_r, app_nil_l.
    intros [Hp Hmem]%completions_seen_post_after_loop.
    rewrite decide_True by done. rewrite chunk_text_payloads, Hp.
    by rewrite (proj1 (post_for_await_buffer _ _ _)).
  - rewrite (proj2 (seen_post_catch _ _ _ _ _ _)). by intros ?%elem_of_nil.
Qed.

Lemma chunk_payload_no_seq conversation content :
  get_field "seq" (chunk_payload conversation content) = None.
Proof. reflexivity. Qed.

(** The chunk events a socket receives from a [stream-message] run. *)
Lemma socket_chunks_seen rooms m socket data env senv :
  chunks_seen rooms m (calls (stream_message socket data env senv))
  = match findOne_result env, save_user_message env, create_result senv with
    | Resolves (Some conversation), Resolves _, Resolves stream =>
        if decide (reached rooms socket conversation m)
        then chunk_payload conversation <$> texts (chunks stream) else []
    | _, _, _ => []
    end.
Proof.
  rewrite stream_message_calls.
  destruct (findOne_result env) as [[conversation|]|e1]; [|seen..].
  destruct (save_user_message env) as [[]|e2]; [|seen].
  rewrite streamAIResponse_calls.
  set (conversation' := addMessage _ conversation).
  rewrite !chunks_seen_app.
  match goal with
  | |- chunks_seen _ _ ?pre1 ++ chunks_seen _ _ ?pre2 ++ _ = _ =>
      assert (chunks_seen rooms m pre1 = []) as -> by seen;
      assert (chunks_seen rooms m pre2 = []) as -> by seen
  end.
  rewrite !app_nil_l.
  destruct (create_result senv) as [[cs [e3|]]|e4]; cbn [throws chunks].
  - rewrite chunks_seen_app, chunks_seen_for_await,
      (proj1 (seen_stream_catch _ _ _ _ _)), app_nil_r. done.
  - rewrite chunks_seen_app, chunks_seen_for_await, chunks_seen_after_loop, app_nil_r.
    done.
  - apply seen_stream_catch.
Qed.

(** The chunk events a socket receives from a run of the route. *)
Lemma post_chunks_seen rooms m req env :
  chunks_seen rooms m (calls (post_message req env))
  = match post_findOne env, post_save_user_message env, post_create env with
    | Resolves (Some conversation), Resolves _, Resolves stream =>
        if decide (m ∈ members rooms (conversation_room (conv_id conversation)))
        then chunk_payload conversation <$> texts (chunks stream) else []
    | _, _, _ => []
    end.
Proof.
  rewrite post_message_calls.
  destruct (post_findOne env) as [[conversation|]|e0]; [|seen..].
  destruct (post_save_user_message env) as [[]|e1]; [|apply seen_post_catch].
  rewrite !chunks_seen_app.
  match goal with
  | |- chunks_seen _ _ ?pre ++ _ = _ =>
      assert (chunks_seen rooms m pre = []) as -> by seen
  end.
  rewrite !app_nil_l.
  destruct (post_create env) as [[cs [e3|]]|e4]; cbn [throws chunks].
  - rewrite chunks_seen_app, chunks_seen_post_for_await,
      (proj1 (seen_post_catch _ _ _ _ _ _)), app_nil_r. done.
  - rewrite chunks_seen_app, chunks_seen_post_for_await, chunks_seen_post_after_loop,
      app_nil_r. done.
  - apply seen_post_catch.
Qed.

Lemma chunk_payloads_no_seq conversation (ts : list string) :
  Forall (λ q, get_field "seq" q = None) (chunk_payload conversation <$> ts).
Proof. apply Forall_fmap, Forall_forall. intros t _. apply chunk_payload_no_seq. Qed.

Lemma stream_run_no_seq rooms m trace :
  stream_run trace → Forall (λ q, get_field "seq" q = None) (chunks_seen rooms m trace).
Proof.
  intros [socket data env senv|req env].
  - rewrite socket_chunks_seen.
    destruct (findOne_result env) as [[conversation|]|e1]; [|done..].
    destruct (save_user_message env) as [[]|e2]; [|done].
    destruct (create_result senv) as [stream|e3]; [|done].
    case_decide; [apply chunk_payloads_no_seq|done].
  - rewrite post_chunks_seen.
    destruct (post_findOne env) as [[conversation|]|e1]; [|done..].
    destruct (post_save_user_message env) as [[]|e2]; [|done].
    destruct (post_create env) as [stream|e3]; [|done].
    case_decide; [apply chunk_payloads_no_seq|done].
Qed.

Lemma receives_steady rooms rooms' m e :
  (∀ room, effect_room e = Some room →
           (m ∈ members rooms' room ↔ m ∈ members rooms room)) →
  receives rooms' m e = receives rooms m e.
Proof.
  intros Hsame. destruct e; simpl; try done.
  - specialize (Hsame room eq_refl). repeat case_decide; naive_solver.
  - specialize (Hsame room eq_refl). repeat case_decide; naive_solver.
Qed.

(** A socket whose membership of the rooms of a run is steady observes the
    run as under one fixed membership. *)
Lemma observed_at_steady m rooms timeline :
  steady m rooms timeline →
  observed_at m timeline = observed rooms m (snd <$> timeline).
Proof.
  unfold steady, observed_at, observed.
  induction 1 as [|[r e] l Hsame _ IH]; [done|].
  rewrite fmap_cons. cbn [omap list_omap fst snd].
  by rewrite (receives_steady rooms r m e Hsame), IH.
Qed.

Lemma steady_by_evaluation m rooms timeline :
  forallb (λ te, match effect_room (snd te) with
                 | Some room =>
                     bool_decide (m ∈ members (fst te) room ↔ m ∈ members rooms room)
                 | None => true
                 end) timeline = true →
  steady m rooms timeline.
Proof.
  unfold steady. induction timeline as [|te l IH]; [constructor|].
  simpl. intros [Hte Hl]%andb_true_iff. constructor; [|by apply IH].
  intros room Hroom. rewrite Hroom in Hte. by apply bool_decide_eq_true in Hte.
Qed.

(** C2, as amended.  Take one run of either submit path, each of its calls
    made under the room membership of its moment, and a socket that neither
    joins nor leaves a room of the run while it lasts.  If the socket
    receives the completion event of the run, then the texts of the chunk
    events of the run it received, concatenated in order of arrival, are
    exactly the content of the completed message.  The chunk payloads carry
    [conversationId], [chunk] and [isComplete] and no sequence number. *)
Theorem chunks_concatenate_to_completion
    (rooms : gmap string (gset string)) (m : string)
    (timeline : list (gmap string (gset string) * Effect)) (p : JsVal) :
  stream_run (snd <$> timeline) →
  steady m rooms timeline →
  p ∈ events_named "ai-stream-complete" (observed_at m timeline) →
  concat_texts (chunk_text <$> events_named "ai-stream-chunk" (observed_at m timeline))
  = message_content p ∧
  Forall (λ q, get_field "seq" q = None)
    (events_named "ai-stream-chunk" (observed_at m timeline)).
Proof.
  intros Hrun Hsteady. rewrite (observed_at_steady _ _ _ Hsteady).
  fold (chunks_seen rooms m (snd <$> timeline)).
  fold (completions_seen rooms m (snd <$> timeline)).
  intros Hp. split; [|by apply stream_run_no_seq].
  destruct Hrun as [socket data env senv|req env].
  - by apply socket_roundtrip.
  - by apply post_roundtrip.
Qed.

Lemma carol_joins_calls :
  snd <$> carol_joins = calls (stream_message alice hello accepted completes).
Proof. vm_compute. reflexivity. Qed.

Lemma chunks_concatenate_to_completion_witness :
  concat_texts
    (chunk_text <$> events_named "ai-stream-chunk" (observed_at "s-bob" carol_joins))
  = message_content (complete_payload conv1 "Hi there" 2 2002) ∧
  Forall (λ q, get_field "seq" q = None)
    (events_named "ai-stream-chunk" (observed_at "s-bob" carol_joins)).
Proof.
  apply (chunks_concatenate_to_completion rooms_joined "s-bob" carol_joins
           (complete_payload conv1 "Hi there" 2 2002)).
  - rewrite carol_joins_calls. apply socket_run.
  - apply steady_by_evaluation. vm_compute. reflexivity.
  - vm_compute. left.
Defined.

(** C2, counterexample.  Bob, a member of the room, receives the chunks of
    Alice's completed stream; they do not carry consecutive sequence
    numbers, because they carry none.  Outside one run and a steady
    membership the texts do not add up either: when two runs on [c1]
    overlap, Bob receives the chunks of both, "HiHi there there", and two
    completions with content "Hi there"; when Bob joins after the first
    chunk, he receives " there" and a completion with content
    "Hi there". *)
Lemma chunks_have_no_seq_counterexample :
  (chunks_seen rooms_joined "s-bob" (calls (stream_message alice hello accepted completes))
     = [chunk_payload conv1 "Hi"; chunk_payload conv1 " there"] ∧
   ¬ seq_gap_free
       (chunks_seen rooms_joined "s-bob"
          (calls (stream_message alice hello accepted completes)))) ∧
  (concat_texts (chunk_text <$> chunks_seen rooms_joined "s-bob" (trace overlapping_runs))
     = "HiHi there there" ∧
   message_content <$> completions_seen rooms_joined "s-bob" (trace overlapping_runs)
     = ["Hi there"; "Hi there"]) ∧
  (concat_texts
     (chunk_text <$> events_named "ai-stream-chunk" (observed_at "s-bob" late_join))
     = " there" ∧
   message_content <$> events_named "ai-stream-complete" (observed_at "s-bob" late_join)
     = ["Hi there"]).
Proof.
  assert (Hseen : chunks_seen rooms_joined "s-bob"
                    (calls (stream_message alice hello accepted completes))
                  = [chunk_payload conv1 "Hi"; chunk_payload conv1 " there"])
    by (vm_compute; reflexivity).
  split; [split; [exact Hseen|]|split; split; vm_compute; reflexivity].
  rewrite Hseen. intros [base Hseq].
  specialize (Hseq 0%nat (chunk_payload conv1 "Hi") eq_refl). discriminate Hseq.
Qed.

(** ** Delivery to the room *)

Lemma completions_seen_after_loop_member rooms m socket conversation model senv buf :
  save_assistant senv = Resolves tt →
  m ∈ members rooms (conversation_room (conv_id conversation)) →
  completions_seen rooms m (after_loop socket conversation model senv buf)
  = [complete_payload conversation (fullResponse buf) (tokenCount buf)
       (if decide (m = socket_id socket)
        then now_complete_socket senv else now_complete_room senv)].
Proof.
  intros Hsave Hmem. unfold after_loop. rewrite Hsave.
  destruct (findById_result senv) as [[u|]|e2];
    [destruct (save_usage senv) as [[]|e3]|..].
  all: seen.
  all: naive_solver.
Qed.

Lemma completions_seen_post_after_loop_member rooms m req conversation env buf :
  post_save_assistant env = Resolves tt →
  m ∈ members rooms (conversation_room (conv_id conversation)) →
  completions_seen rooms m (post_after_loop req conversation env buf)
  = [complete_payload conversation (fullResponse buf) (tokenCount buf)
       (post_now_complete env)].
Proof.
  intros Hsave Hmem. unfold post_after_loop. rewrite Hsave.
  destruct (post_save_usage env) as [[]|e2]; seen.
Qed.

Lemma socket_completions_seen_member rooms m socket data env senv conversation stream :
  findOne_result env = Resolves (Some conversation) →
  save_user_message env = Resolves tt →
  create_result senv = Resolves stream →
  throws stream = None →
  save_assistant senv = Resolves tt →
  m ∈ members rooms (conversation_room (conv_id conversation)) →
  completions_seen rooms m (calls (stream_message socket data env senv))
  = [complete_payload conversation (concat_texts (texts (chunks stream)))
       (Z.of_nat (length (texts (chunks stream))))
       (if decide (m = socket_id socket)
        then now_complete_socket senv else now_complete_room senv)].
Proof.
  intros Hfind Hsave Hcreate Hend Hassist Hmem.
  rewrite stream_message_calls, Hfind, Hsave, streamAIResponse_calls, Hcreate, Hend.
  set (conversation' := addMessage _ conversation).
  rewrite !completions_seen_app.
  match goal with
  | |- completions_seen _ _ ?pre1 ++ completions_seen _ _ ?pre2 ++ _ = _ =>
      assert (completions_seen rooms m pre1 = []) as -> by seen;
      assert (completions_seen rooms m pre2 = []) as -> by seen
  end.
  rewrite completions_seen_for_await, !app_nil_l.
  rewrite completions_seen_after_loop_member by done.
  destruct (for_await_buffer socket conversation' (mkBuffer "" 0) (chunks stream))
    as [-> ->].
  reflexivity.
Qed.

Lemma post_completions_seen_member rooms m req env conversation stream :
  post_findOne env = Resolves (Some conversation) →
  post_save_user_message env = Resolves tt →
  post_create env = Resolves stream →
  throws stream = None →
  post_save_assistant env = Resolves tt →
  m ∈ members rooms (conversation_room (conv_id conversation)) →
  completions_seen rooms m (calls (post_message req env))
  = [complete_payload conversation (concat_texts (texts (chunks stream)))
       (Z.of_nat (length (texts (chunks stream)))) (post_now_complete env)].
Proof.
  intros Hfind Hsave Hcreate Hend Hassist Hmem.
  rewrite post_message_calls, Hfind, Hsave, Hcreate, Hend.
  rewrite !completions_seen_app.
  match goal with
  | |- completions_seen _ _ ?pre ++ _ = _ =>
      assert (completions_seen rooms m pre = []) as -> by seen
  end.
  rewrite completions_seen_post_for_await, !app_nil_l.
  rewrite completions_seen_post_after_loop_member by done.
  destruct (post_for_await_buffer conversation (mkBuffer "" 0) (chunks stream))
    as [-> ->].
  reflexivity.
Qed.

(** C9.  On both submit paths, once the provider has answered with a
    stream, every member of the conversation's room, the submitter's socket
    included, receives the same chunk events: one per forwarded increment,
    in the order of the stream, with the same payload.  When the stream
    ends and the assistant message is saved, every member also receives
    exactly one completion event, whose content is the whole text. *)
Theorem chunks_reach_every_member
    (rooms : gmap string (gset string)) (m : string)
    (conversation : Conversation) (stream : ProviderStream) :
  m ∈ members rooms (conversation_room (conv_id conversation)) →
  (∀ socket data env senv,
     findOne_result env = Resolves (Some conversation) →
     save_user_message env = Resolves tt →
     create_result senv = Resolves stream →
     chunks_seen rooms m (calls (stream_message socket data env senv))
       = chunk_payload conversation <$> texts (chunks stream) ∧
     (throws stream = None → save_assistant senv = Resolves tt →
      ∃ p, completions_seen rooms m (calls (stream_message socket data env senv)) = [p] ∧
           message_content p = concat_texts (texts (chunks stream)))) ∧
  (∀ req env,
     post_findOne env = Resolves (Some conversation) →
     post_save_user_message env = Resolves tt →
     post_create env = Resolves stream →
     chunks_seen rooms m (calls (post_message req env))
       = chunk_payload conversation <$> texts (chunks stream) ∧
     (throws stream = None → post_save_assistant env = Resolves tt →
      ∃ p, completions_seen rooms m (calls (post_message req env)) = [p] ∧
           message_content p = concat_texts (texts (chunks stream)))).
Proof.
  intros Hmem. split.
  - intros socket data env senv Hfind Hsave Hcreate. split.
    + rewrite socket_chunks_seen, Hfind, Hsave, Hcreate.
      rewrite decide_True; [done|]. by right.
    + intros Hend Hassist. eexists. split.
      * by eapply socket_completions_seen_member.
      * reflexivity.
  - intros req env Hfind Hsave Hcreate. split.
    + rewrite post_chunks_seen, Hfind, Hsave, Hcreate. by rewrite decide_True.
    + intros Hend Hassist. eexists. split.
      * by eapply post_completions_seen_member.
      * reflexivity.
Qed.

Lemma chunks_reach_every_member_witness :
  (chunks_seen rooms_joined "s-alice" (calls (stream_message alice hello accepted completes))
   = chunk_payload conv1 <$> texts (chunks hi_there)) ∧
  (chunks_seen rooms_joined "s-alice" (calls (post_message alice_request post_completes))
   = chunk_payload conv1 <$> texts (chunks hi_there)).
Proof.
  assert (Hmem : "s-alice" ∈ members rooms_joined (conversation_room (conv_id conv1))).
  { apply (bool_decide_unpack _). vm_compute. reflexivity. }
  split.
  - apply (proj1 (chunks_reach_every_member rooms_joined "s-alice" conv1 hi_there Hmem)
             alice hello accepted completes); reflexivity.
  - apply (proj2 (chunks_reach_every_member rooms_joined "s-alice" conv1 hi_there Hmem)
             alice_request post_completes); reflexivity.
Defined.

(** ** The user message is written before the provider is called *)

Lemma no_generation_post_catch req conversation env err :
  no_generation (calls (post_catch req conversation env err)).
Proof.
  rewrite post_catch_calls.
  destruct (post_save_error_message env) as [[]|e]; repeat constructor.
Qed.







(** ** Failures after and during a stream *)

(** C6 (evaluation at the failing input).  Alice's stream completes and the
    assistant message is saved; then [user.save()] rejects.  The usage
    update sits inside the [try] block of [streamAIResponse], so the [catch]
    block runs: after the completion event Alice receives [ai-stream-error],
    and the room a second [ai-typing-stop].  The route, whose [updateUsage]
    has its own [try]/[catch], only logs the failure. *)
Theorem usage_failure_reaches_the_client :
  event_names rooms_joined "s-alice"
    (calls (stream_message alice hello accepted usage_save_fails))
  = ["message-sent"; "ai-stream-chunk"; "ai-stream-chunk"; "ai-stream-complete";
     "ai-stream-error"] ∧
  event_names rooms_joined "s-bob"
    (calls (stream_message alice hello accepted usage_save_fails))
  = ["message-sent"; "ai-typing-start"; "ai-stream-chunk"; "ai-stream-chunk";
     "ai-stream-complete"; "ai-typing-stop"; "ai-typing-stop"] ∧
  content <$> persisted (calls (stream_message alice hello accepted usage_save_fails))
  = ["hello"; "Hi there"] ∧
  event_names rooms_joined "s-bob" (calls (post_message alice_request post_usage_save_fails))
  = ["message-sent"; "ai-typing-start"; "ai-stream-chunk"; "ai-stream-chunk";
     "ai-stream-complete"; "ai-typing-stop"] ∧
  ConsoleError "Error updating usage:"
    ∈ calls (post_message alice_request post_usage_save_fails).
Proof.
  repeat split; try (vm_compute; reflexivity).
  vm_compute. repeat constructor.
Qed.

(** C7 (evaluation at the failing input).  The provider throws after two
    increments of Alice's socket stream.  [ai-stream-error] goes to Alice's
    socket only: Bob, in the same room, receives [ai-typing-stop] without
    it; and the only message written is the user's.  The route, in the same
    situation, broadcasts [ai-stream-error] to the room and writes an
    assistant message marked with the error. *)
Theorem provider_failure_on_socket_path :
  event_names rooms_joined "s-alice"
    (calls (stream_message alice hello accepted provider_fails))
  = ["message-sent"; "ai-stream-chunk"; "ai-stream-chunk"; "ai-stream-error"] ∧
  event_names rooms_joined "s-bob"
    (calls (stream_message alice hello accepted provider_fails))
  = ["message-sent"; "ai-typing-start"; "ai-stream-chunk"; "ai-stream-chunk";
     "ai-typing-stop"] ∧
  role <$> persisted (calls (stream_message alice hello accepted provider_fails))
  = ["user"] ∧
  event_names rooms_joined "s-bob" (calls (post_message alice_request post_provider_fails))
  = ["message-sent"; "ai-typing-start"; "ai-stream-chunk"; "ai-stream-chunk";
     "ai-stream-error"; "ai-typing-stop"] ∧
  (λ msg, (role msg, error msg))
    <$> persisted (calls (post_message alice_request post_provider_fails))
  = [("user", None); ("assistant", Some "socket hang up")].
Proof. repeat split; vm_compute; reflexivity. Qed.

(** ** Concurrent submissions *)

Lemma submit_accepted socket data env senv conversation stream :
  findOne_result env = Resolves (Some conversation) →
  save_user_message env = Resolves tt →
  create_result senv = Resolves stream →
  submit socket data env senv
  = ([Persisted (conv_id conversation)
        (new_message (user_message_data data conversation) conversation);
      IoToEmit (conversation_room (data_conversationId data)) "message-sent"
        (message_sent_payload (data_conversationId data) (data_message data)
           (userId socket) (username socket) (now_sent env));
      SocketToEmit (socket_id socket) (conversation_room (conv_id conversation))
        "ai-typing-start"
        (typing_ai_payload (addMessage (user_message_data data conversation) conversation));
      ProviderCall (or_string (data_model data) (conv_model conversation))
        (history (addMessage (user_message_data data conversation) conversation))],
     inr (Some {| session_socket := socket;
                  session_conversation :=
                    addMessage (user_message_data data conversation) conversation;
                  session_model := data_model data;
                  session_env := senv;
                  session_buffer := mkBuffer "" 0;
                  pending := chunks stream;
                  ending := throws stream |})).
Proof.
  intros Hfind Hsave Hcreate.
  unfold submit, stream_message_accept, save_message, stream_begin.
  rewrite Hfind, Hsave, Hcreate. reflexivity.
Qed.

Lemma streaming_count_snoc c n session tr :
  streaming_count c {| streaming := streaming n ++ [session]; trace := tr |}
  = (streaming_count c n
     + if decide (conv_id (session_conversation session) = c) then 1 else 0)%nat.
Proof.
  unfold streaming_count. simpl. rewrite filter_app, length_app. f_equal.
  case_decide.
  - by rewrite filter_cons_True.
  - by rewrite filter_cons_False.
Qed.

(** C1, as amended.  The [stream-message] handler consults no record of
    generations in flight.  Whatever sessions are streaming, a submit whose
    conversation lookup, user-message write and provider call succeed is
    accepted: it writes the user message, broadcasts [message-sent], calls
    the provider and starts streaming, so that the conversation has one
    more streaming session than before; no error is emitted. *)
Theorem submit_accepted_while_streaming
    (n : Node) (socket : Socket) (data : StreamData) (env : SubmitEnv) (senv : StreamEnv)
    (conversation : Conversation) (stream : ProviderStream) :
  findOne_result env = Resolves (Some conversation) →
  save_user_message env = Resolves tt →
  create_result senv = Resolves stream →
  streaming_count (conv_id conversation) (node_step (Submit socket data env senv) n)
    = S (streaming_count (conv_id conversation) n) ∧
  trace (node_step (Submit socket data env senv) n)
    = trace n ++
      [Persisted (conv_id conversation)
         (new_message (user_message_data data conversation) conversation);
       IoToEmit (conversation_room (data_conversationId data)) "message-sent"
         (message_sent_payload (data_conversationId data) (data_message data)
            (userId socket) (username socket) (now_sent env));
       SocketToEmit (socket_id socket) (conversation_room (conv_id conversation))
         "ai-typing-start"
         (typing_ai_payload (addMessage (user_message_data data conversation) conversation));
       ProviderCall (or_string (data_model data) (conv_model conversation))
         (history (addMessage (user_message_data data conversation) conversation))].
Proof.
  intros Hfind Hsave Hcreate. unfold node_step.
  rewrite (submit_accepted _ _ _ _ _ _ Hfind Hsave Hcreate). cbn [snd fst calls].
  split; [|done].
  rewrite streaming_count_snoc. cbn [session_conversation].
  rewrite decide_True by done. lia.
Qed.

Lemma submit_accepted_while_streaming_witness :
  streaming_count "c1"
    (node_step (Submit alice hello accepted completes)
       (node_run [Submit alice hello accepted completes; Advance 0] idle))
  = S (streaming_count "c1" (node_run [Submit alice hello accepted completes; Advance 0] idle)).
Proof.
  apply (submit_accepted_while_streaming
           (node_run [Submit alice hello accepted completes; Advance 0] idle)
           alice hello accepted completes conv1 hi_there); reflexivity.
Defined.

(** C1, counterexample.  Alice's second submit on [c1] arrives while her
    first stream is in its loop.  It is not rejected: the second user
    message is written, two sessions of [c1] are streaming at once, and the
    second session goes on to emit chunks. *)
Lemma second_submit_streams_counterexample :
  ¬ at_most_one_streaming two_submits ∧
  streaming_count "c1" two_submits = 2%nat ∧
  content <$> persisted (trace two_submits) = ["hello"; "hello"] ∧
  trace (node_step (Advance 1) two_submits)
  = trace two_submits ++
    [SocketEmit "s-alice" "ai-stream-chunk" (chunk_payload conv1 "Hi");
     SocketToEmit "s-alice" "conversation:c1" "ai-stream-chunk" (chunk_payload conv1 "Hi")].
Proof.
  assert (Hcount : streaming_count "c1" two_submits = 2%nat) by (vm_compute; reflexivity).
  split; [|split; [exact Hcount|split; vm_compute; reflexivity]].
  intros Hone. specialize (Hone "c1"). rewrite Hcount in Hone. lia.
Qed.

(** ** One session, stepped to its end, is one run of the handler *)

Lemma node_run_cons ev evs n : node_run (ev :: evs) n = node_run evs (node_step ev n).
Proof. reflexivity. Qed.

Lemma advance_to_end cs : ∀ s t,
  pending s = cs →
  node_run (replicate (S (length cs)) (Advance 0)) {| streaming := [s]; trace := t |}
  = {| streaming := [];
       trace := t ++ snd (for_await (session_socket s) (session_conversation s)
                            (session_buffer s) cs)
                  ++ match ending s with
                     | Some err =>
                         calls (stream_catch (session_socket s) (session_conversation s) err)
                     | None =>
                         after_loop (session_socket s) (session_conversation s)
                           (session_model s) (session_env s)
                           (fst (for_await (session_socket s) (session_conversation s)
                                   (session_buffer s) cs))
                     end |}.
Proof.
  induction cs as [|c rest IH]; intros s t Hpending.
  - simpl. unfold advance. rewrite Hpending. simpl. f_equal. f_equal.
    destruct (ending s) as [err|]; [done|]. apply stream_end_calls.
  - change (replicate (S (length (c :: rest))) (Advance 0))
      with (Advance 0 :: replicate (S (length rest)) (Advance 0)).
    rewrite node_run_cons.
    unfold node_step. cbn [streaming lookup list_lookup trace].
    unfold advance. rewrite Hpending.
    rewrite for_await_cons.
    destruct (on_chunk (session_socket s) (session_conversation s) (session_buffer s) c)
      as [buf out] eqn:Hchunk.
    cbn [insert list_insert fst snd].
    rewrite IH by done. cbn [session_socket session_conversation session_model
                               session_env session_buffer ending].
    by rewrite <- !app_assoc.
Qed.

(** Stepping one submission alone to its end makes exactly the calls of
    [stream_message]. *)
Lemma single_session_is_stream_message socket data env senv :
  ∃ k, node_run (Submit socket data env senv :: replicate k (Advance 0)) idle
       = {| streaming := []; trace := calls (stream_message socket data env senv) |}.
Proof.
  rewrite stream_message_calls.
  destruct (findOne_result env) as [[conversation|]|e1] eqn:Hfind;
    [|exists 0%nat; unfold node_run, node_step, submit, stream_message_accept; simpl;
      by rewrite Hfind..].
  destruct (save_user_message env) as [[]|e2] eqn:Hsave;
    [|exists 0%nat; unfold node_run, node_step, submit, stream_message_accept, save_message;
      simpl; by rewrite Hfind, Hsave].
  rewrite streamAIResponse_calls.
  destruct (create_result senv) as [stream|e3] eqn:Hcreate.
  - exists (S (length (chunks stream))).
    rewrite node_run_cons. unfold node_step.
    rewrite (submit_accepted _ _ _ _ _ _ Hfind Hsave Hcreate). cbn [snd fst calls idle
      streaming trace app].
    rewrite advance_to_end by done.
    cbn [session_socket session_conversation session_model session_env session_buffer
           ending]. reflexivity.
  - exists 0%nat.
    unfold node_run, node_step, submit, stream_message_accept, save_message, stream_begin.
    simpl. by rewrite Hfind, Hsave, Hcreate.
Qed.


(** * Further properties of the code *)

(** ** Leaving, disconnecting and typing *)

(** X1.  After [leave-conversation] the user has no typing entry in that
    conversation and the socket is not in its room; the typing sets of the
    other conversations are untouched. *)
Theorem leave_conversation_clears (sock : Socket) (c : string) (s : Realtime) :
  (userId sock ∉ typingUsersList c (fst (leave_conversation sock c s))) ∧
  (socket_id sock ∉ members (rooms (fst (leave_conversation sock c s)))
                      (conversation_room c)) ∧
  ∀ c', c' ≠ c →
    typingUsers (fst (leave_conversation sock c s)) !! c' = typingUsers s !! c'.
Proof.
  unfold leave_conversation, typingUsersList.
  assert (Hroom : socket_id sock
                    ∉ members (leave_room (socket_id sock) (conversation_room c) (rooms s))
                        (conversation_room c)).
  { unfold members, leave_room.
    destruct (rooms s !! conversation_room c) as [ms|] eqn:Hr.
    - rewrite lookup_insert_eq. set_solver.
    - rewrite Hr. set_solver. }
  destruct (typingUsers s !! c) as [users|] eqn:Hl; simpl.
  - split; [|split; [done|]].
    + rewrite (remove_typing_lookup _ _ _ _ Hl). set_solver.
    + intros c' Hne. by apply remove_typing_other.
  - rewrite Hl. split; [set_solver|]. split; [done|]. done.
Qed.

Lemma disconnect_entry_removes uid (typing : gmap string (gset string)) (c : string) :
  uid ∉ default ∅ (omap (disconnect_entry uid) typing !! c).
Proof.
  rewrite lookup_omap.
  destruct (typing !! c) as [users|]; simpl; [|set_solver].
  unfold disconnect_entry. case_decide; [|done].
  case_decide; simpl; set_solver.
Qed.

Lemma typing_stopped_same_room sock (c c' : string) :
  IoToEmit (conversation_room c) "typing-stopped" (typing_payload c sock)
  = IoToEmit (conversation_room c') "typing-stopped" (typing_payload c' sock) →
  c = c'.
Proof. unfold typing_payload. congruence. Qed.

(** X2.  After [disconnect] the user is in no typing set, the socket is in
    no room and not in [userSockets].  The calls of the handler are, in
    some order, one [typing-stopped] for each conversation the user was
    typing in, sent to the room of that conversation with the
    conversation, the user and the username as payload, and nothing
    else. *)
Theorem disconnect_clears (sock : Socket) (s : Realtime) :
  (∀ c, userId sock ∉ typingUsersList c (fst (disconnect sock s))) ∧
  userSockets (fst (disconnect sock s)) !! socket_id sock = None ∧
  (∀ room, socket_id sock ∉ members (rooms (fst (disconnect sock s))) room) ∧
  (∀ e, e ∈ snd (disconnect sock s)
        ↔ ∃ c, userId sock ∈ typingUsersList c s ∧
               e = IoToEmit (conversation_room c) "typing-stopped"
                     (typing_payload c sock)) ∧
  NoDup (snd (disconnect sock s)) ∧
  length (snd (disconnect sock s))
    = size (filter (λ kv, userId sock ∈ snd kv) (typingUsers s)) ∧
  typing_stopped_count (userId sock) (snd (disconnect sock s))
    = length (snd (disconnect sock s)).
Proof.
  split; [|split; [|split; [|split; [|split; [|split]]]]].
  - intros c. apply disconnect_entry_removes.
  - simpl. apply lookup_delete_eq.
  - intros room. unfold members. simpl. rewrite lookup_fmap.
    destruct (rooms s !! room); simpl; set_solver.
  - intros e. simpl. rewrite list_elem_of_fmap. unfold typingUsersList. split.
    + intros [[c users] [-> Hin]].
      apply elem_of_map_to_list, map_lookup_filter_Some in Hin as [Hl Hu].
      exists c. simpl in *. by rewrite Hl.
    + intros [c [Hc ->]].
      destruct (typingUsers s !! c) as [users|] eqn:Hl; [|set_solver].
      exists (c, users). split; [done|].
      by apply elem_of_map_to_list, map_lookup_filter_Some.
  - simpl. apply NoDup_fmap_2_strong; [|apply NoDup_map_to_list].
    intros [c users] [c' users'] Hin Hin' Heq. simpl in Heq.
    apply typing_stopped_same_room in Heq as <-.
    apply elem_of_map_to_list in Hin, Hin'. congruence.
  - simpl. rewrite length_fmap. apply length_map_to_list.
  - simpl. unfold typing_stopped_count.
    induction (map_to_list _) as [|kv l IH]; [done|].
    rewrite fmap_cons, filter_cons_True.
    + simpl. by rewrite IH.
    + unfold is_typing_stopped. simpl. by rewrite String.eqb_refl.
Qed.

(** X3.  Refreshing a typing signal does not change the typing state, and
    in a reachable state a [typing-start] of a user who was not typing,
    followed by that user's [typing-stop], restores [typingUsers] exactly
    (the room's key is deleted again if the user was alone). *)
Theorem typing_start_refresh_and_undo (sock : Socket) (c : string) (s : Realtime) :
  reachable s →
  typingUsers (fst (typing_start sock c (fst (typing_start sock c s))))
    = typingUsers (fst (typing_start sock c s)) ∧
  (userId sock ∉ typingUsersList c s →
   typingUsers (fst (typing_stop sock c (fst (typing_start sock c s)))) = typingUsers s).
Proof.
  intros [evs <-].
  assert (Hinv : typing_sets_nonempty (typingUsers (fst (run evs initial)))).
  { apply run_typing_nonempty. intros c' users'. simpl. by rewrite lookup_empty. }
  set (s := fst (run evs initial)) in *. split.
  - simpl. destruct (typingUsers s !! c) as [users|] eqn:Hl.
    + rewrite !lookup_insert_eq. rewrite Hl. simpl.
      rewrite insert_insert_eq. f_equal. set_solver.
    + rewrite !lookup_insert_eq. simpl. rewrite !insert_insert_eq. f_equal. set_solver.
  - unfold typingUsersList, typing_stop. simpl.
    destruct (typingUsers s !! c) as [users|] eqn:Hl; simpl; intros Hnin.
    + rewrite !lookup_insert_eq. rewrite Hl. simpl. unfold remove_typing.
      assert (({[userId sock]} ∪ users) ∖ {[userId sock]} = users) as -> by set_solver.
      case_decide as Hsz.
      * apply size_empty_inv in Hsz. apply leibniz_equiv in Hsz.
        by destruct (Hinv c users Hl).
      * rewrite insert_insert_eq. by apply insert_id.
    + rewrite !lookup_insert_eq. simpl. unfold remove_typing.
      assert (({[userId sock]} ∪ ∅) ∖ {[userId sock]} = (∅ : gset string)) as ->
        by set_solver.
      rewrite decide_True by apply size_empty.
      rewrite insert_insert_eq, delete_insert_eq. by apply delete_id.
Qed.

Lemma typing_start_refresh_and_undo_witness :
  typingUsers (fst (typing_start alice "c1"
                      (fst (typing_start alice "c1" (fst (run both_joined initial))))))
    = typingUsers (fst (typing_start alice "c1" (fst (run both_joined initial)))) ∧
  ("alice" ∉ typingUsersList "c1" (fst (run both_joined initial)) →
   typingUsers (fst (typing_stop alice "c1"
                       (fst (typing_start alice "c1" (fst (run both_joined initial))))))
   = typingUsers (fst (run both_joined initial))).
Proof.
  apply (typing_start_refresh_and_undo alice "c1" (fst (run both_joined initial))).
  exists both_joined. reflexivity.
Defined.

(** ** The realtime routes *)

Lemma typing_total_bounds (typing : gmap string (gset string)) :
  typing_sets_nonempty typing →
  (size typing ≤ map_fold (λ _ users sum, sum + size users) 0 typing)%nat.
Proof.
  apply (map_fold_weak_ind
           (λ r m, typing_sets_nonempty m → (size m ≤ r)%nat)).
  - intros _. by rewrite map_size_empty.
  - intros c users m r Hnone IH Hinv.
    rewrite map_size_insert_None by done.
    assert (Hm : typing_sets_nonempty m).
    { intros c' users' Hl. apply (Hinv c' users').
      rewrite lookup_insert_ne; [done|]. intros ->. congruence. }
    assert (Hne : users ≠ ∅) by (apply (Hinv c); apply lookup_insert_eq).
    assert (size users ≠ 0%nat).
    { intros Hsz. apply Hne. apply size_empty_inv in Hsz. by apply leibniz_equiv. }
    specialize (IH Hm). lia.
Qed.

(** X4.  In every reachable state the figures of [GET /stats] agree: each
    conversation counted as active has at least one typing user, so
    [totalTypingUsers] is at least [active], and it is 0 when no
    conversation is active; a caller who is not an admin gets 403 and no
    figures. *)
Theorem stats_typing_figures (role : string) (s : Realtime) :
  reachable s →
  (role ≠ "admin" → stats_route role s = (403, None)) ∧
  ∃ connected active total,
    stats_route "admin" s = (200, Some (connected, active, total)) ∧
    (active ≤ total)%nat ∧
    (active = 0%nat → total = 0%nat).
Proof.
  intros [evs <-]. split.
  - intros Hne. unfold stats_route. by destruct (String.eqb_spec role "admin").
  - eexists _, _, _. split; [reflexivity|]. split.
    + apply typing_total_bounds, run_typing_nonempty.
      intros c users. simpl. by rewrite lookup_empty.
    + intros Hsz. apply map_size_empty_inv in Hsz. rewrite Hsz. apply map_fold_empty.
Qed.

Lemma stats_typing_figures_witness :
  ("admin" ≠ "admin" →
   stats_route "admin" (fst (run (both_joined ++ [TypingStart alice "c1"]) initial))
   = (403, None)) ∧
  ∃ connected active total,
    stats_route "admin" (fst (run (both_joined ++ [TypingStart alice "c1"]) initial))
      = (200, Some (connected, active, total)) ∧
    (active ≤ total)%nat ∧
    (active = 0%nat → total = 0%nat).
Proof.
  apply (stats_typing_figures "admin"
           (fst (run (both_joined ++ [TypingStart alice "c1"]) initial))).
  exists (both_joined ++ [TypingStart alice "c1"]). reflexivity.
Defined.

(** X5.  A notification for a user goes to the socket recorded at the
    user's last connection, which receives it; once a socket of the user
    has disconnected the route answers 404 and emits nothing, whatever
    other sockets of the user remain. *)
Theorem notify_after_connect_and_disconnect
    (sock : Socket) (s : Realtime) (from : string) (type : option string)
    (message data : JsVal) (now : Z) :
  socket_id sock ≠ "" →
  observed (rooms (fst (connection sock s))) (socket_id sock)
    (notify from (userId sock) type message data now (fst (connection sock s)))
    = [("notification", notification_payload type message data now from)] ∧
  Respond 200 true
    ∈ notify from (userId sock) type message data now (fst (connection sock s)) ∧
  notify from (userId sock) type message data now (fst (disconnect sock s))
    = [Respond 404 false].
Proof.
  intros Hid. unfold notify. simpl.
  rewrite lookup_insert_eq, lookup_delete_eq.
  destruct (String.eqb_spec (socket_id sock) ""); [done|].
  split; [|split; [|done]].
  - unfold observed. simpl. rewrite decide_True; [done|].
    unfold members, join_room.
    destruct (decide (user_room (userId sock) = socket_id sock)) as [->|Hne].
    + rewrite lookup_insert_eq. set_solver.
    + rewrite lookup_insert_ne by done. rewrite lookup_insert_eq. set_solver.
  - set_solver.
Qed.

Lemma notify_after_connect_and_disconnect_witness :
  notify "bob" "alice" None (JStr "ping") (JObj []) 5
    (fst (disconnect alice (fst (run both_joined initial))))
  = [Respond 404 false].
Proof.
  apply (notify_after_connect_and_disconnect alice (fst (run both_joined initial))
           "bob" None (JStr "ping") (JObj []) 5).
  discriminate.
Defined.

(** ** What a submission sends to the provider and writes *)

Lemma no_generation_app out1 out2 :
  no_generation out1 → no_generation out2 → no_generation (out1 ++ out2).
Proof. unfold no_generation. intros. by apply Forall_app. Qed.

Lemma no_generation_for_await socket conversation buf cs :
  no_generation (snd (for_await socket conversation buf cs)).
Proof.
  revert buf. induction cs as [|c rest IH]; intros buf; [constructor|].
  rewrite for_await_cons. cbn [snd]. apply no_generation_app; [|apply IH].
  chunk_cases c as content Hne; [constructor| |constructor].
  rewrite on_chunk_forward by done. repeat constructor.
Qed.

Lemma no_generation_post_for_await conversation buf cs :
  no_generation (snd (post_for_await conversation buf cs)).
Proof.
  revert buf. induction cs as [|c rest IH]; intros buf; [constructor|].
  rewrite post_for_await_cons. cbn [snd]. apply no_generation_app; [|apply IH].
  chunk_cases c as content Hne; [constructor| |constructor].
  rewrite post_on_chunk_forward by done. repeat constructor.
Qed.

Lemma no_generation_after_loop socket conversation model senv buf :
  no_generation (after_loop socket conversation model senv buf).
Proof.
  unfold after_loop.
  destruct (save_assistant senv) as [[]|e1]; [|repeat constructor].
  destruct (findById_result senv) as [[u|]|e2]; [|repeat constructor..].
  destruct (save_usage senv) as [[]|e3]; repeat constructor.
Qed.

Lemma no_generation_post_after_loop req conversation env buf :
  no_generation (post_after_loop req conversation env buf).
Proof.
  unfold post_after_loop.
  destruct (post_save_assistant env) as [[]|e1]; [|apply no_generation_post_catch].
  destruct (post_save_usage env) as [[]|e2]; repeat constructor.
Qed.

Lemma no_generation_not_in model msgs trace :
  no_generation trace → ProviderCall model msgs ∉ trace.
Proof.
  intros Hno Hin. unfold no_generation in Hno. rewrite Forall_forall in Hno.
  by specialize (Hno _ Hin).
Qed.

Lemma history_addMessage messageData conversation :
  history (addMessage messageData conversation)
  = history conversation ++ [(md_role messageData, md_content messageData)].
Proof. unfold history. simpl. by rewrite fmap_app. Qed.

(** The provider call of the socket handler. *)
Lemma socket_provider_call model msgs socket data env senv :
  ProviderCall model msgs ∈ calls (stream_message socket data env senv) →
  ∃ conversation,
    findOne_result env = Resolves (Some conversation) ∧
    model = or_string (data_model data) (conv_model conversation) ∧
    msgs = history conversation ++ [("user", data_message data)].
Proof.
  rewrite stream_message_calls.
  destruct (findOne_result env) as [[conversation|]|e1];
    [|intros Hin; by apply (no_generation_not_in model msgs) in Hin;
        [|repeat constructor]..].
  destruct (save_user_message env) as [[]|e2];
    [|intros Hin; by apply (no_generation_not_in model msgs) in Hin;
        [|repeat constructor]].
  rewrite streamAIResponse_calls.
  intros Hin. exists conversation. split; [done|].
  apply elem_of_app in Hin as [Hin|Hin];
    [by apply (no_generation_not_in model msgs) in Hin; [|repeat constructor]|].
  apply elem_of_app in Hin as [Hin|Hin].
  + apply elem_of_cons in Hin as [Hin|Hin]; [done|].
    apply list_elem_of_singleton in Hin. injection Hin as -> ->.
    by rewrite history_addMessage.
  + exfalso. revert Hin. apply no_generation_not_in.
    destruct (create_result senv) as [[cs [e3|]]|e4]; cbn [throws chunks].
    * apply no_generation_app; [apply no_generation_for_await|repeat constructor].
    * apply no_generation_app;
        [apply no_generation_for_await|apply no_generation_after_loop].
    * repeat constructor.
Qed.

(** The provider call of the route handler, for the body it is given. *)
Lemma post_provider_call model msgs req env :
  ProviderCall model msgs ∈ calls (post_message req env) →
  ∃ conversation,
    post_findOne env = Resolves (Some conversation) ∧
    model = or_string (body_model req) (conv_model conversation) ∧
    msgs = history conversation ++ [("user", body_message req)].
Proof.
  rewrite post_message_calls.
  destruct (post_findOne env) as [[conversation|]|e1];
    [|intros Hin; by apply (no_generation_not_in model msgs) in Hin;
        [|repeat constructor]..].
  destruct (post_save_user_message env) as [[]|e2];
    [|intros Hin; by apply (no_generation_not_in model msgs) in Hin;
        [|apply no_generation_post_catch]].
  intros Hin. exists conversation. split; [done|].
  apply elem_of_app in Hin as [Hin|Hin].
  + repeat (apply elem_of_cons in Hin as [Hin|Hin]; [done|]).
    apply list_elem_of_singleton in Hin. injection Hin as -> ->.
    by rewrite history_addMessage.
  + exfalso. revert Hin. apply no_generation_not_in.
    destruct (post_create env) as [[cs [e3|]]|e4]; cbn [throws chunks].
    * apply no_generation_app;
        [apply no_generation_post_for_await|apply no_generation_post_catch].
    * apply no_generation_app;
        [apply no_generation_post_for_await|apply no_generation_post_after_loop].
    * apply no_generation_post_catch.
Qed.

(** What [validate] leaves as the model is one of the three models of the
    schema, the first of them when the body named none; [||] keeps it. *)
Lemma sendMessage_model_valid given validated :
  sendMessage_model given = Some validated →
  validated ∈ ["gpt-4o-mini"; "gpt-4o"; "gpt-3.5-turbo"] ∧
  (given = None → validated = "gpt-4o-mini") ∧
  (∀ fallback, or_string (Some validated) fallback = validated).
Proof.
  unfold sendMessage_model. destruct given as [m|].
  - destruct (String.eqb_spec m "gpt-4o-mini") as [->|_];
      [intros [= <-]; split; [set_solver|done]|].
    destruct (String.eqb_spec m "gpt-4o") as [->|_];
      [intros [= <-]; split; [set_solver|done]|].
    destruct (String.eqb_spec m "gpt-3.5-turbo") as [->|_];
      [intros [= <-]; split; [set_solver|done]|].
    done.
  - intros [= <-]. split; [set_solver|done].
Qed.

(** X6.  On both submit paths the provider is called with the stored
    history of the conversation followed by the new user message.  On the
    socket path the model is the requested one or, when none (or an empty
    one) is given, the conversation's.  On the route the body has passed
    [validate], which puts [gpt-4o-mini] where the body names no model: the
    provider is called with the model of the validated body, one of the
    three models of the schema, whatever the model of the conversation. *)
Theorem provider_receives_history_and_message (model : string) (msgs : list (string * string)) :
  (∀ socket data env senv,
     ProviderCall model msgs ∈ calls (stream_message socket data env senv) →
     ∃ conversation,
       findOne_result env = Resolves (Some conversation) ∧
       model = or_string (data_model data) (conv_model conversation) ∧
       msgs = history conversation ++ [("user", data_message data)]) ∧
  (∀ given validated req env,
     sendMessage_model given = Some validated →
     body_model req = Some validated →
     ProviderCall model msgs ∈ calls (post_message req env) →
     ∃ conversation,
       post_findOne env = Resolves (Some conversation) ∧
       model = validated ∧
       model ∈ ["gpt-4o-mini"; "gpt-4o"; "gpt-3.5-turbo"] ∧
       (given = None → model = "gpt-4o-mini") ∧
       msgs = history conversation ++ [("user", body_message req)]).
Proof.
  split.
  - intros socket data env senv. apply socket_provider_call.
  - intros given validated req env Hvalid Hbody Hin.
    apply post_provider_call in Hin as [conversation [Hfind [Hmodel Hmsgs]]].
    apply sendMessage_model_valid in Hvalid as [Hin [Hdefault Hor]].
    rewrite Hbody, Hor in Hmodel. subst model.
    exists conversation. done.
Qed.

Lemma provider_receives_history_and_message_witness :
  (∃ conversation,
     findOne_result accepted = Resolves (Some conversation) ∧
     "gpt-4o-mini" = or_string (data_model hello) (conv_model conversation) ∧
     [("user", "hello")] = history conversation ++ [("user", data_message hello)]) ∧
  (∃ conversation,
     post_findOne post_completes_gpt4o = Resolves (Some conversation) ∧
     "gpt-4o-mini" = "gpt-4o-mini" ∧
     "gpt-4o-mini" ∈ ["gpt-4o-mini"; "gpt-4o"; "gpt-3.5-turbo"] ∧
     ((None : option string) = None → "gpt-4o-mini" = "gpt-4o-mini") ∧
     [("user", "hello")] = history conversation ++ [("user", body_message validated_request)]).
Proof.
  split.
  - apply (proj1 (provider_receives_history_and_message "gpt-4o-mini" [("user", "hello")])
             alice hello accepted completes).
    vm_compute. do 3 right. left.
  - apply (proj2 (provider_receives_history_and_message "gpt-4o-mini" [("user", "hello")])
             None "gpt-4o-mini" validated_request post_completes_gpt4o);
      [reflexivity..|].
    vm_compute. do 3 right. left.
Defined.

(** A projection that ignores emissions sees nothing of the loops. *)
Lemma omap_for_await {A : Type} (f : Effect → option A) socket conversation buf cs :
  (∀ sid ev p, f (SocketEmit sid ev p) = None) →
  (∀ sid room ev p, f (SocketToEmit sid room ev p) = None) →
  omap f (snd (for_await socket conversation buf cs)) = [].
Proof.
  intros H1 H2. revert buf. induction cs as [|c rest IH]; intros buf; [done|].
  rewrite for_await_cons. cbn [snd]. rewrite omap_app, IH, app_nil_r.
  chunk_cases c as content Hne; [done| |done].
  rewrite on_chunk_forward by done. simpl. by rewrite H1, H2.
Qed.

Lemma omap_post_for_await {A : Type} (f : Effect → option A) conversation buf cs :
  (∀ room ev p, f (IoToEmit room ev p) = None) →
  omap f (snd (post_for_await conversation buf cs)) = [].
Proof.
  intros H1. revert buf. induction cs as [|c rest IH]; intros buf; [done|].
  rewrite post_for_await_cons. cbn [snd]. rewrite omap_app, IH, app_nil_r.
  chunk_cases c as content Hne; [done| |done].
  rewrite post_on_chunk_forward by done. simpl. by rewrite H1.
Qed.

Lemma or_string_idem model fallback :
  or_string (Some (or_string model fallback)) fallback = or_string model fallback.
Proof.
  unfold or_string at 1.
  destruct (String.eqb_spec (or_string model fallback) "") as [Heq|Hne]; [|done].
  rewrite Heq. unfold or_string in Heq.
  destruct model as [m|]; [|done].
  destruct (String.eqb_spec m ""); [done|congruence].
Qed.

Lemma persisted_after_loop socket conversation model senv buf :
  save_assistant senv = Resolves tt →
  persisted (after_loop socket conversation model senv buf)
  = [new_message (assistant_message_data model conversation buf (now_a senv - now_b senv))
       conversation].
Proof.
  intros Hsave. unfold after_loop. rewrite Hsave.
  destruct (findById_result senv) as [[u|]|e2]; [|done..].
  by destruct (save_usage senv) as [[]|e3].
Qed.

Lemma persisted_post_after_loop req conversation env buf :
  post_save_assistant env = Resolves tt →
  persisted (post_after_loop req conversation env buf)
  = [new_message
       (assistant_message_data (body_model req) conversation buf
          (post_now_saved env - startTime env))
       (addMessage (post_user_message_data req conversation) conversation)].
Proof.
  intros Hsave. unfold post_after_loop. rewrite Hsave.
  by destruct (post_save_usage env) as [[]|e2].
Qed.

(** X7.  A submission whose stream ends normally and whose writes succeed
    writes two messages, in this order: the user's, then one assistant
    message whose content is the concatenation of the forwarded increments
    and whose token count is their number (chunks without content or with
    an empty one are neither forwarded nor counted).  The processing time
    recorded by the socket path is the difference of two successive clock
    readings, the first minus the second; the route's is the time since the
    handler started. *)
Theorem completed_submission_writes
    (conversation : Conversation) (stream : ProviderStream) :
  throws stream = None →
  (∀ socket data env senv,
     findOne_result env = Resolves (Some conversation) →
     save_user_message env = Resolves tt →
     create_result senv = Resolves stream →
     save_assistant senv = Resolves tt →
     ∃ user assistant,
       persisted (calls (stream_message socket data env senv)) = [user; assistant] ∧
       (role user, content user) = ("user", data_message data) ∧
       (role assistant, content assistant, tokens assistant)
         = ("assistant", concat_texts (texts (chunks stream)),
            Z.of_nat (length (texts (chunks stream)))) ∧
       model assistant = or_string (data_model data) (conv_model conversation) ∧
       processingTime assistant = Some (now_a senv - now_b senv) ∧
       error assistant = None) ∧
  (∀ req env,
     post_findOne env = Resolves (Some conversation) →
     post_save_user_message env = Resolves tt →
     post_create env = Resolves stream →
     post_save_assistant env = Resolves tt →
     ∃ user assistant,
       persisted (calls (post_message req env)) = [user; assistant] ∧
       (role user, content user) = ("user", body_message req) ∧
       (role assistant, content assistant, tokens assistant)
         = ("assistant", concat_texts (texts (chunks stream)),
            Z.of_nat (length (texts (chunks stream)))) ∧
       model assistant = or_string (body_model req) (conv_model conversation) ∧
       processingTime assistant = Some (post_now_saved env - startTime env) ∧
       error assistant = None).
Proof.
  intros Hend. split.
  - intros socket data env senv Hfind Hsave Hcreate Hassist.
    rewrite stream_message_calls, Hfind, Hsave, streamAIResponse_calls, Hcreate, Hend.
    set (conversation' := addMessage _ conversation).
    unfold persisted. rewrite !omap_app. fold persisted.
    rewrite omap_for_await by done.
    rewrite persisted_after_loop by done.
    destruct (for_await_buffer socket conversation' (mkBuffer "" 0) (chunks stream))
      as [Hfull Hcount].
    eexists _, _. split; [reflexivity|].
    cbn [role content tokens model processingTime error new_message
         assistant_message_data user_message_data md_role md_content md_tokens
         md_model md_processingTime md_error default from_option id].
    rewrite Hfull, Hcount. repeat split. apply or_string_idem.
  - intros req env Hfind Hsave Hcreate Hassist.
    rewrite post_message_calls, Hfind, Hsave, Hcreate, Hend.
    unfold persisted. rewrite !omap_app. fold persisted.
    rewrite omap_post_for_await by done.
    rewrite persisted_post_after_loop by done.
    destruct (post_for_await_buffer conversation (mkBuffer "" 0) (chunks stream))
      as [Hfull Hcount].
    eexists _, _. split; [reflexivity|].
    cbn [role content tokens model processingTime error new_message
         assistant_message_data post_user_message_data md_role md_content md_tokens
         md_model md_processingTime md_error default from_option id].
    rewrite Hfull, Hcount. repeat split. apply or_string_idem.
Qed.

Lemma completed_submission_writes_witness :
  ∃ user assistant,
    persisted (calls (stream_message alice hello accepted completes)) = [user; assistant] ∧
    (role user, content user) = ("user", data_message hello) ∧
    (role assistant, content assistant, tokens assistant)
      = ("assistant", concat_texts (texts (chunks hi_there)),
         Z.of_nat (length (texts (chunks hi_there)))) ∧
    model assistant = or_string (data_model hello) (conv_model conv1) ∧
    processingTime assistant = Some (now_a completes - now_b completes) ∧
    error assistant = None.
Proof.
  apply (proj1 (completed_submission_writes conv1 hi_there eq_refl)
           alice hello accepted completes); reflexivity.
Defined.

(** ** Usage accounting and responses *)

Lemma usage_saves_after_loop socket conversation model senv buf u' :
  u' ∈ usage_saves (after_loop socket conversation model senv buf) →
  save_assistant senv = Resolves tt ∧
  ∃ u, findById_result senv = Resolves (Some u) ∧
       u' = incrementUsage 1 (tokenCount buf) u.
Proof.
  unfold after_loop.
  destruct (save_assistant senv) as [[]|e1]; [|by intros ?%elem_of_nil].
  destruct (findById_result senv) as [[u|]|e2]; [|by intros ?%elem_of_nil..].
  destruct (save_usage senv) as [[]|e3]; [|by intros ?%elem_of_nil].
  intros ->%list_elem_of_singleton. split; [done|]. by exists u.
Qed.

Lemma usage_saves_post_catch req conversation env err :
  usage_saves (calls (post_catch req conversation env err)) = [].
Proof.
  rewrite post_catch_calls. by destruct (post_save_error_message env) as [[]|e].
Qed.

Lemma usage_saves_post_after_loop req conversation env buf u' :
  u' ∈ usage_saves (post_after_loop req conversation env buf) →
  post_save_assistant env = Resolves tt ∧
  u' = {| user_id := user_id (req_user req);
          usage := {| messagesThisMonth := messagesThisMonth (usage (req_user req)) + 1;
                      usage_totalMessages := usage_totalMessages (usage (req_user req));
                      usage_totalTokens := usage_totalTokens (usage (req_user req)) |} |}.
Proof.
  unfold post_after_loop.
  destruct (post_save_assistant env) as [[]|e1];
    [|rewrite usage_saves_post_catch; by intros ?%elem_of_nil].
  destruct (post_save_usage env) as [[]|e2]; [|by intros ?%elem_of_nil].
  by intros ->%list_elem_of_singleton.
Qed.

(** X8.  Usage is saved only after the assistant message of a normally
    ended stream has been written.  The socket path then adds one message
    to the monthly and the total count and the number of forwarded
    increments to the token total; the route adds one to the monthly count
    and leaves both totals as they were. *)
Theorem usage_saved_only_after_completion (saved : User) :
  (∀ socket data env senv,
     saved ∈ usage_saves (calls (stream_message socket data env senv)) →
     ∃ stream u,
       create_result senv = Resolves stream ∧ throws stream = None ∧
       save_assistant senv = Resolves tt ∧
       findById_result senv = Resolves (Some u) ∧
       saved = incrementUsage 1 (Z.of_nat (length (texts (chunks stream)))) u) ∧
  (∀ req env,
     saved ∈ usage_saves (calls (post_message req env)) →
     (∃ stream, post_create env = Resolves stream ∧ throws stream = None) ∧
     post_save_assistant env = Resolves tt ∧
     messagesThisMonth (usage saved) = messagesThisMonth (usage (req_user req)) + 1 ∧
     usage_totalMessages (usage saved) = usage_totalMessages (usage (req_user req)) ∧
     usage_totalTokens (usage saved) = usage_totalTokens (usage (req_user req))).
Proof.
  split.
  - intros socket data env senv. rewrite stream_message_calls.
    destruct (findOne_result env) as [[conversation|]|e1]; [|by intros ?%elem_of_nil..].
    destruct (save_user_message env) as [[]|e2]; [|by intros ?%elem_of_nil].
    rewrite streamAIResponse_calls.
    set (conversation' := addMessage _ conversation).
    unfold usage_saves. rewrite !omap_app. fold usage_saves. cbn [omap list_omap app].
    destruct (create_result senv) as [[cs [e3|]]|e4]; cbn [throws chunks];
      [unfold usage_saves; rewrite omap_app, omap_for_await by done;
       by intros ?%elem_of_nil
      | |by intros ?%elem_of_nil].
    unfold usage_saves. rewrite omap_app, omap_for_await by done. fold usage_saves.
    intros [Hassist [u [Hfind ->]]]%usage_saves_after_loop.
    exists (mkProviderStream cs None), u. repeat split; try done.
    by rewrite (proj2 (for_await_buffer _ _ _ _)).
  - intros req env. rewrite post_message_calls.
    destruct (post_findOne env) as [[conversation|]|e1]; [|by intros ?%elem_of_nil..].
    destruct (post_save_user_message env) as [[]|e2];
      [|rewrite usage_saves_post_catch; by intros ?%elem_of_nil].
    unfold usage_saves. rewrite !omap_app. fold usage_saves. cbn [omap list_omap app].
    destruct (post_create env) as [[cs [e3|]]|e4]; cbn [throws chunks];
      [unfold usage_saves; rewrite omap_app, omap_post_for_await by done;
       fold usage_saves; rewrite usage_saves_post_catch; by intros ?%elem_of_nil
      | |rewrite usage_saves_post_catch; by intros ?%elem_of_nil].
    unfold usage_saves. rewrite omap_app, omap_post_for_await by done. fold usage_saves.
    intros [Hassist ->]%usage_saves_post_after_loop.
    split; [by exists (mkProviderStream cs None)|]. done.
Qed.

Lemma usage_saved_only_after_completion_witness :
  ∃ stream u,
    create_result completes = Resolves stream ∧ throws stream = None ∧
    save_assistant completes = Resolves tt ∧
    findById_result completes = Resolves (Some u) ∧
    mkUser "alice" (mkUsage 4 4 42)
      = incrementUsage 1 (Z.of_nat (length (texts (chunks stream)))) u.
Proof.
  apply (proj1 (usage_saved_only_after_completion (mkUser "alice" (mkUsage 4 4 42)))
           alice hello accepted completes).
  vm_compute. left.
Defined.

Lemma responses_post_catch req conversation env err :
  responses (calls (post_catch req conversation env err))
  = match post_save_error_message env with
    | Resolves _ => [(500, false)]
    | Rejects _ => []
    end.
Proof.
  rewrite post_catch_calls. by destruct (post_save_error_message env) as [[]|e].
Qed.

Lemma responses_post_after_loop req conversation env buf :
  responses (post_after_loop req conversation env buf)
  = match post_save_assistant env with
    | Resolves _ => [(200, true)]
    | Rejects _ =>
        match post_save_error_message env with
        | Resolves _ => [(500, false)]
        | Rejects _ => []
        end
    end.
Proof.
  unfold post_after_loop.
  destruct (post_save_assistant env) as [[]|e1]; [|apply responses_post_catch].
  by destruct (post_save_usage env) as [[]|e2].
Qed.

(** X9.  The route never answers twice.  It answers 404 when the
    conversation is not the user's, 200 exactly when the user message, the
    stream and the assistant message all succeed (a failed usage update
    does not change that), and otherwise 500 provided the error message
    could be written; when that write, or the lookup itself, rejects, the
    handler sends nothing and leaves the error to the error middleware. *)
Theorem route_answers_once (req : Request) (env : PostEnv) :
  responses (calls (post_message req env))
  = match post_findOne env with
    | Rejects _ => []
    | Resolves None => [(404, false)]
    | Resolves (Some _) =>
        match post_save_user_message env, post_create env, post_save_assistant env with
        | Resolves _, Resolves {| chunks := _; throws := None |}, Resolves _ =>
            [(200, true)]
        | _, _, _ =>
            match post_save_error_message env with
            | Resolves _ => [(500, false)]
            | Rejects _ => []
            end
        end
    end.
Proof.
  rewrite post_message_calls.
  destruct (post_findOne env) as [[conversation|]|e0]; [|done..].
  destruct (post_save_user_message env) as [[]|e1]; [|apply responses_post_catch].
  unfold responses. rewrite !omap_app. fold responses. cbn [omap list_omap app].
  destruct (post_create env) as [[cs [e3|]]|e4]; cbn [throws chunks].
  - unfold responses. rewrite omap_app, omap_post_for_await by done. fold responses.
    rewrite responses_post_catch. by destruct (post_save_assistant env) as [[]|?].
  - unfold responses. rewrite omap_app, omap_post_for_await by done. fold responses.
    apply responses_post_after_loop.
  - rewrite responses_post_catch. by destruct (post_save_assistant env) as [[]|?].
Qed.

(** ** The assistant's typing indicator on the socket path *)

Lemma events_named_other_chunks name conversation (ts : list string) :
  name ≠ "ai-stream-chunk" →
  events_named name ((λ t, ("ai-stream-chunk", chunk_payload conversation t)) <$> ts) = [].
Proof.
  intros Hne. induction ts as [|t ts IH]; [done|].
  unfold events_named in *. rewrite fmap_cons. cbn [omap list_omap fst snd].
  destruct (String.eqb_spec "ai-stream-chunk" name); [congruence|]. apply IH.
Qed.

Lemma events_named_for_await name rooms m socket conversation buf cs :
  name ≠ "ai-stream-chunk" →
  events_named name (observed rooms m (snd (for_await socket conversation buf cs))) = [].
Proof.
  intros Hne. rewrite for_await_observed.
  case_decide; [by apply events_named_other_chunks|done].
Qed.

(** What a room member other than the submitter sees of the [catch] block. *)
Lemma observed_stream_catch_member rooms m socket conversation err :
  m ∈ members rooms (conversation_room (conv_id conversation)) →
  m ≠ socket_id socket →
  observed rooms m (calls (stream_catch socket conversation err))
  = [("ai-typing-stop", conversation_only_payload conversation)].
Proof.
  intros Hmem Hne. unfold observed. simpl.
  rewrite decide_False by congruence. by rewrite decide_True.
Qed.

Lemma observed_after_loop_member rooms m socket conversation model senv buf :
  m ∈ members rooms (conversation_room (conv_id conversation)) →
  m ≠ socket_id socket →
  ∃ seen_before,
    observed rooms m (after_loop socket conversation model senv buf)
    = seen_before ++ [("ai-typing-stop", conversation_only_payload conversation)].
Proof.
  intros Hmem Hne. unfold after_loop.
  destruct (save_assistant senv) as [[]|e1];
    [|exists []; by apply observed_stream_catch_member].
  rewrite observed_app.
  assert (Hfour : ∀ p1 p2 msg,
    observed rooms m
      [Persisted (conv_id conversation) msg;
       SocketEmit (socket_id socket) "ai-stream-complete" p1;
       SocketToEmit (socket_id socket) (conversation_room (conv_id conversation))
         "ai-stream-complete" p2;
       SocketToEmit (socket_id socket) (conversation_room (conv_id conversation))
         "ai-typing-stop" (conversation_only_payload conversation)]
    = [("ai-stream-complete", p2);
       ("ai-typing-stop", conversation_only_payload conversation)]).
  { intros. unfold observed. simpl.
    rewrite decide_False by congruence. by rewrite !decide_True. }
  rewrite Hfour.
  destruct (findById_result senv) as [[u|]|e2];
    [destruct (save_usage senv) as [[]|e3]|..].
  - eexists [_]. reflexivity.
  - rewrite observed_stream_catch_member by done. eexists [_; _]. reflexivity.
  - eexists [_]. reflexivity.
  - rewrite observed_stream_catch_member by done. eexists [_; _]. reflexivity.
Qed.

(** X10.  On the socket path, once the user message is written, every room
    member other than the submitter receives [ai-typing-start], and the
    last event it receives from the run is [ai-typing-stop], however the
    run ends (provider error, failed write, failed usage update included).
    The submitting socket itself receives neither event. *)
Theorem assistant_typing_indicator_is_cleared
    (rooms : gmap string (gset string)) (m : string) (socket : Socket)
    (data : StreamData) (env : SubmitEnv) (senv : StreamEnv) (conversation : Conversation) :
  findOne_result env = Resolves (Some conversation) →
  save_user_message env = Resolves tt →
  (m ∈ members rooms (conversation_room (conv_id conversation)) →
   m ≠ socket_id socket →
   "ai-typing-start" ∈ event_names rooms m (calls (stream_message socket data env senv)) ∧
   last (event_names rooms m (calls (stream_message socket data env senv)))
     = Some "ai-typing-stop") ∧
  events_named "ai-typing-start"
    (observed rooms (socket_id socket) (calls (stream_message socket data env senv))) = [] ∧
  events_named "ai-typing-stop"
    (observed rooms (socket_id socket) (calls (stream_message socket data env senv))) = [].
Proof.
  intros Hfind Hsave.
  rewrite stream_message_calls, Hfind, Hsave, streamAIResponse_calls.
  set (conversation' := addMessage _ conversation).
  split.
  - intros Hmem Hne. unfold event_names. rewrite !observed_app, !fmap_app.
    assert (Hstart : observed rooms m
              [SocketToEmit (socket_id socket) (conversation_room (conv_id conversation'))
                 "ai-typing-start" (typing_ai_payload conversation');
               ProviderCall (or_string (data_model data) (conv_model conversation'))
                 (history conversation')]
            = [("ai-typing-start", typing_ai_payload conversation')]).
    { unfold observed. simpl. by rewrite decide_True. }
    rewrite Hstart. split; [set_solver|].
    assert (Hends : ∃ seen_before,
              observed rooms m
                match create_result senv with
                | Resolves stream =>
                    snd (for_await socket conversation' (mkBuffer "" 0) (chunks stream))
                    ++ match throws stream with
                       | Some err => calls (stream_catch socket conversation' err)
                       | None =>
                           after_loop socket conversation' (data_model data) senv
                             (fst (for_await socket conversation' (mkBuffer "" 0)
                                     (chunks stream)))
                       end
                | Rejects err => calls (stream_catch socket conversation' err)
                end
              = seen_before ++ [("ai-typing-stop", conversation_only_payload conversation')]).
    { destruct (create_result senv) as [[cs [e3|]]|e4]; cbn [throws chunks].
      - rewrite observed_app, observed_stream_catch_member by done. by eexists.
      - rewrite observed_app.
        destruct (observed_after_loop_member rooms m socket conversation'
                    (data_model data) senv
                    (fst (for_await socket conversation' (mkBuffer "" 0) cs)) Hmem Hne)
          as [before ->].
        rewrite app_assoc. by eexists.
      - rewrite observed_stream_catch_member by done. by exists []. }
    destruct Hends as [before ->].
    rewrite fmap_app, !app_assoc. apply last_snoc.
  - assert (Hquiet : ∀ name, name = "ai-typing-start" ∨ name = "ai-typing-stop" →
      events_named name
        (observed rooms (socket_id socket)
           (calls (stream_catch socket conversation' ""))) = [] ∧
      ∀ buf, events_named name
               (observed rooms (socket_id socket)
                  (after_loop socket conversation' (data_model data) senv buf)) = []).
    { intros name Hname. split.
      - destruct Hname as [-> | ->]; seen; naive_solver.
      - intros buf. unfold after_loop.
        destruct (save_assistant senv) as [[]|e1];
          [|destruct Hname as [-> | ->]; seen; naive_solver].
        destruct (findById_result senv) as [[u|]|e2];
          [destruct (save_usage senv) as [[]|e3]|..];
          destruct Hname as [-> | ->]; seen; naive_solver. }
    assert (Hall : ∀ name, name = "ai-typing-start" ∨ name = "ai-typing-stop" →
      events_named name
        (observed rooms (socket_id socket)
           ([Persisted (conv_id conversation)
               (new_message (user_message_data data conversation) conversation);
             IoToEmit (conversation_room (data_conversationId data)) "message-sent"
               (message_sent_payload (data_conversationId data) (data_message data)
                  (userId socket) (username socket) (now_sent env))] ++
            [SocketToEmit (socket_id socket) (conversation_room (conv_id conversation'))
               "ai-typing-start" (typing_ai_payload conversation');
             ProviderCall (or_string (data_model data) (conv_model conversation'))
               (history conversation')] ++
            match create_result senv with
            | Resolves stream =>
                snd (for_await socket conversation' (mkBuffer "" 0) (chunks stream))
                ++ match throws stream with
                   | Some err => calls (stream_catch socket conversation' err)
                   | None =>
                       after_loop socket conversation' (data_model data) senv
                         (fst (for_await socket conversation' (mkBuffer "" 0)
                                 (chunks stream)))
                   end
            | Rejects err => calls (stream_catch socket conversation' err)
            end)) = []).
    { intros name Hname. destruct (Hquiet name Hname) as [Hcatch Hafter].
      rewrite !observed_app, !events_named_app.
      assert (Hne : name ≠ "ai-stream-chunk") by (destruct Hname as [-> | ->]; done).
      match goal with
      | |- events_named _ (observed _ _ ?pre1) ++ events_named _ (observed _ _ ?pre2) ++ _
           = _ =>
          assert (events_named name (observed rooms (socket_id socket) pre1) = []) as ->
            by (destruct Hname as [-> | ->]; seen);
          assert (events_named name (observed rooms (socket_id socket) pre2) = []) as ->
            by (destruct Hname as [-> | ->]; seen; naive_solver)
      end.
      rewrite !app_nil_l.
      destruct (create_result senv) as [[cs [e3|]]|e4]; cbn [throws chunks].
      - rewrite observed_app, events_named_app, events_named_for_await by done.
        exact Hcatch.
      - rewrite observed_app, events_named_app, events_named_for_await by done.
        apply Hafter.
      - exact Hcatch. }
    split; apply Hall; auto.
Qed.

Lemma assistant_typing_indicator_is_cleared_witness :
  ("s-bob" ∈ members rooms_joined (conversation_room (conv_id conv1)) →
   "s-bob" ≠ socket_id alice →
   "ai-typing-start"
     ∈ event_names rooms_joined "s-bob"
         (calls (stream_message alice hello accepted provider_fails)) ∧
   last (event_names rooms_joined "s-bob"
           (calls (stream_message alice hello accepted provider_fails)))
     = Some "ai-typing-stop") ∧
  events_named "ai-typing-start"
    (observed rooms_joined (socket_id alice)
       (calls (stream_message alice hello accepted provider_fails))) = [] ∧
  events_named "ai-typing-stop"
    (observed rooms_joined (socket_id alice)
       (calls (stream_message alice hello accepted provider_fails))) = [].
Proof.
  apply (assistant_typing_indicator_is_cleared rooms_joined "s-bob" alice hello accepted
           provider_fails conv1); reflexivity.
Defined.

(** ** The conversation document *)

Lemma sum_tokens_app msgs1 msgs2 :
  sum_tokens (msgs1 ++ msgs2) = sum_tokens msgs1 + sum_tokens msgs2.
Proof.
  induction msgs1 as [|msg msgs1 IH]; simpl; [done|]. rewrite IH. lia.
Qed.

Lemma counters_apply_op this op :
  totalMessages this = Z.of_nat (length (messages this)) →
  totalTokens this = sum_tokens (messages this) →
  totalMessages (apply_op this op) = Z.of_nat (length (messages (apply_op this op))) ∧
  totalTokens (apply_op this op) = sum_tokens (messages (apply_op this op)).
Proof.
  intros Hcount Htokens. destruct op as [messageData|]; simpl; [|done].
  rewrite length_app, sum_tokens_app, Hcount, Htokens. simpl. split; lia.
Qed.

Lemma filter_roles_length (msgs : list Message) :
  (length (filter (λ msg, role msg = "user") msgs)
   + length (filter (λ msg, role msg = "assistant") msgs) ≤ length msgs)%nat.
Proof.
  induction msgs as [|msg msgs IH]; [done|].
  destruct (decide (role msg = "user")) as [Hu|Hu].
  - rewrite filter_cons_True by done.
    rewrite (filter_cons_False (λ msg, role msg = "assistant")) by (rewrite Hu; done).
    simpl. lia.
  - rewrite filter_cons_False by done.
    destruct (decide (role msg = "assistant")).
    + rewrite filter_cons_True by done. simpl. lia.
    + rewrite filter_cons_False by done. simpl. lia.
Qed.

(** X11.  A conversation created by the route and changed by any sequence
    of [addMessage] and [clearMessages] keeps its counters true:
    [totalMessages] is the number of stored messages and [totalTokens] the
    sum of their token counts, so the figures of [getStats] agree with the
    list, and user and assistant messages together never exceed the
    total. *)
Theorem conversation_counters_stay_true
    (id uid : string) (title_given model_given : option string) (ops : list DocumentOp) :
  let this := foldl apply_op (new_conversation id uid title_given model_given) ops in
  totalMessages this = Z.of_nat (stats_totalMessages (getStats this)) ∧
  stats_totalTokens (getStats this) = sum_tokens (messages this) ∧
  (stats_userMessages (getStats this) + stats_assistantMessages (getStats this)
   ≤ stats_totalMessages (getStats this))%nat.
Proof.
  cbv zeta.
  assert (Hinv : ∀ this,
            totalMessages this = Z.of_nat (length (messages this)) →
            totalTokens this = sum_tokens (messages this) →
            totalMessages (foldl apply_op this ops)
              = Z.of_nat (length (messages (foldl apply_op this ops))) ∧
            totalTokens (foldl apply_op this ops)
              = sum_tokens (messages (foldl apply_op this ops))).
  { induction ops as [|op ops IH]; intros this Hc Ht; [done|].
    simpl. destruct (counters_apply_op this op Hc Ht). by apply IH. }
  destruct (Hinv (new_conversation id uid title_given model_given) eq_refl eq_refl)
    as [Hc Ht].
  split; [exact Hc|]. split; [exact Ht|]. apply filter_roles_length.
Qed.

Lemma length_append (a b : string) :
  String.length (a +:+ b) = (String.length a + String.length b)%nat.
Proof. induction a as [|x a IH]; [done|]. rewrite append_cons. simpl. by rewrite IH. Qed.

Lemma length_substring_0 (n : nat) (s : string) :
  (String.length (String.substring 0 n s) ≤ n)%nat.
Proof.
  revert s. induction n as [|n IH]; intros s.
  - destruct s; simpl; lia.
  - destruct s as [|x s]; simpl; [lia|]. specialize (IH s). lia.
Qed.

Lemma substring_0_all (n : nat) (s : string) :
  (String.length s ≤ n)%nat → String.substring 0 n s = s.
Proof.
  revert s. induction n as [|n IH]; intros s Hlen.
  - destruct s; simpl in *; [done|lia].
  - destruct s as [|x s]; simpl in *; [done|]. rewrite IH; [done|lia].
Qed.

(** X12.  [addMessage] retitles a conversation only while its title is
    'New Conversation' and the message is the user's: the title becomes the
    message text when that has at most 50 characters, and otherwise its
    first 50 characters followed by "...".  In every case the new title is
    no longer than the old one or 53 characters, whichever is larger. *)
Theorem addMessage_title (messageData : MessageData) (this : Conversation) :
  (title this ≠ "New Conversation" ∨ md_role messageData ≠ "user" →
   title (addMessage messageData this) = title this) ∧
  (title this = "New Conversation" → md_role messageData = "user" →
   title (addMessage messageData this)
   = if decide (String.length (md_content messageData) ≤ 50)%nat
     then md_content messageData
     else String.substring 0 50 (md_content messageData) +:+ "...") ∧
  (String.length (title (addMessage messageData this))
   ≤ Nat.max (String.length (title this)) 53)%nat.
Proof.
  unfold addMessage. cbn [title role content new_message].
  destruct (String.eqb_spec (title this) "New Conversation") as [Ht|Ht];
    destruct (String.eqb_spec (md_role messageData) "user") as [Hr|Hr];
    cbn [andb]; (split; [|split]); try done; try lia; try (intros [?|?]; done).
  - intros _ _. case_decide as Hlen.
    + assert ((50 <? String.length (md_content messageData))%nat = false) as ->
        by (apply Nat.ltb_ge; lia).
      by rewrite append_empty_r, substring_0_all.
    + assert ((50 <? String.length (md_content messageData))%nat = true) as ->
        by (apply Nat.ltb_lt; lia).
      done.
  - rewrite length_append.
    pose proof (length_substring_0 50 (md_content messageData)).
    destruct (50 <? String.length (md_content messageData))%nat; simpl; lia.
Qed.

Lemma addMessage_title_witness :
  title (addMessage (user_message_data hello conv1) conv1)
  = if decide (String.length (md_content (user_message_data hello conv1)) ≤ 50)%nat
    then md_content (user_message_data hello conv1)
    else String.substring 0 50 (md_content (user_message_data hello conv1)) +:+ "...".
Proof.
  apply (addMessage_title (user_message_data hello conv1) conv1); reflexivity.
Defined.

(** ** Message limits *)

Lemma count_message_is_updateUsage this :
  calls (updateUsage (subscriber this) (Resolves tt))
  = [UsageSaved (subscriber (count_message this))].
Proof. reflexivity. Qed.

Lemma plan_limit_positive p limit : plan_limit p = Some limit → 0 < limit.
Proof.
  unfold plan_limit.
  repeat (destruct (String.eqb _ _); [intros [= <-]; lia|]). done.
Qed.

(** X13.  The limit check lets a request through exactly when the user's
    plan has a limit and the monthly count is below it, after the count
    has been reset for a new month: the first request of a new month (or
    year) passes for every plan with a limit and leaves the count at 0 and
    the reset date at now; within the month of the last reset the document
    is unchanged and the request passes iff the count is below the limit;
    under an unknown plan every request is answered 429. *)
Theorem checkMessageLimit_decides (now : MonthOfYear) (this : Subscriber) :
  (plan_limit (plan this) = None → snd (checkMessageLimit now this) = Some 429) ∧
  (∀ limit, plan_limit (plan this) = Some limit →
     (month now ≠ month (lastResetDate this) ∨
      fullYear now ≠ fullYear (lastResetDate this) →
      snd (checkMessageLimit now this) = None ∧
      messagesThisMonth (usage (subscriber (fst (checkMessageLimit now this)))) = 0 ∧
      lastResetDate (fst (checkMessageLimit now this)) = now) ∧
     (month now = month (lastResetDate this) →
      fullYear now = fullYear (lastResetDate this) →
      fst (checkMessageLimit now this) = this ∧
      (snd (checkMessageLimit now this) = None
       ↔ messagesThisMonth (usage (subscriber this)) < limit))).
Proof.
  unfold checkMessageLimit, resetMonthlyUsage, canSendMessage. split.
  - intros Hnone.
    destruct (negb _ || negb _); cbn [fst snd plan]; by rewrite Hnone.
  - intros limit Hlimit. pose proof (plan_limit_positive _ _ Hlimit) as Hpos. split.
    + intros Hnew.
      assert (negb (month now =? month (lastResetDate this))
              || negb (fullYear now =? fullYear (lastResetDate this)) = true) as ->.
      { apply orb_true_iff.
        destruct Hnew as [Hm|Hy]; [left|right]; apply negb_true_iff; by apply Z.eqb_neq. }
      cbn [fst snd plan subscriber usage messagesThisMonth lastResetDate].
      rewrite Hlimit.
      assert ((0 <? limit) = true) as -> by (apply Z.ltb_lt; lia). done.
    + intros Hm Hy. rewrite Hm, Hy, !Z.eqb_refl. cbn [negb orb fst].
      rewrite Hlimit.
      destruct (Z.ltb_spec (messagesThisMonth (usage (subscriber this))) limit);
        cbn [fst snd]; split; try done; split; try done; lia.
Qed.

Lemma checkMessageLimit_decides_witness :
  snd (checkMessageLimit (mkMonthOfYear 2025 3)
         (mkSubscriber alice_user "free" (mkMonthOfYear 2025 2))) = None ∧
  messagesThisMonth
    (usage (subscriber (fst (checkMessageLimit (mkMonthOfYear 2025 3)
                               (mkSubscriber alice_user "free" (mkMonthOfYear 2025 2))))))
  = 0 ∧
  lastResetDate (fst (checkMessageLimit (mkMonthOfYear 2025 3)
                        (mkSubscriber alice_user "free" (mkMonthOfYear 2025 2))))
  = mkMonthOfYear 2025 3.
Proof.
  apply (proj2 (checkMessageLimit_decides (mkMonthOfYear 2025 3)
                  (mkSubscriber alice_user "free" (mkMonthOfYear 2025 2)))
           20 eq_refl).
  left. discriminate.
Defined.

Lemma count_messages_usage n this :
  messagesThisMonth (usage (subscriber (Nat.iter n count_message this)))
    = messagesThisMonth (usage (subscriber this)) + Z.of_nat n ∧
  plan (Nat.iter n count_message this) = plan this ∧
  lastResetDate (Nat.iter n count_message this) = lastResetDate this.
Proof.
  induction n as [|n [IH1 [IH2 IH3]]]; [simpl; repeat split; lia|].
  rewrite Nat.iter_succ. cbn [count_message subscriber usage messagesThisMonth plan
                                lastResetDate].
  rewrite IH1, IH2, IH3. repeat split. lia.
Qed.

Lemma checkMessageLimit_this_month now this limit :
  plan_limit (plan this) = Some limit →
  lastResetDate this = now →
  (snd (checkMessageLimit now this) = None
   ↔ messagesThisMonth (usage (subscriber this)) < limit).
Proof.
  intros Hlimit <-.
  unfold checkMessageLimit, resetMonthlyUsage, canSendMessage.
  rewrite !Z.eqb_refl. cbn [negb orb fst]. rewrite Hlimit.
  destruct (Z.ltb_spec (messagesThisMonth (usage (subscriber this))) limit);
    cbn [snd]; split; try done; lia.
Qed.

(** X14.  [updateUsage] saves the user with one message more on the
    monthly count, and saves nothing when its write fails.  Within the
    month of the last reset, after [n] such increments of the document the
    limit check lets the next request through iff the count before them
    plus [n] is still below the limit of the plan, which is 20, 100 or
    1000. *)
Theorem monthly_quota (now : MonthOfYear) (this : Subscriber) (limit : Z) (n : nat) :
  plan_limit (plan this) = Some limit →
  lastResetDate this = now →
  (snd (checkMessageLimit now (Nat.iter n count_message this)) = None
   ↔ messagesThisMonth (usage (subscriber this)) + Z.of_nat n < limit) ∧
  (limit = 20 ∨ limit = 100 ∨ limit = 1000) ∧
  usage_saves (calls (updateUsage (subscriber this) (Resolves tt)))
  = [subscriber (count_message this)] ∧
  (∀ err, usage_saves (calls (updateUsage (subscriber this) (Rejects err))) = []).
Proof.
  intros Hlimit Hnow.
  destruct (count_messages_usage n this) as [Hcount [Hplan Hdate]].
  split; [|split; [|split]].
  - rewrite <- Hplan in Hlimit. rewrite <- Hdate in Hnow.
    rewrite (checkMessageLimit_this_month _ _ _ Hlimit Hnow). by rewrite Hcount.
  - revert Hlimit. unfold plan_limit.
    repeat (destruct (String.eqb _ _); [intros [= <-]; auto|]). done.
  - reflexivity.
  - reflexivity.
Qed.

Lemma monthly_quota_witness :
  (snd (checkMessageLimit (mkMonthOfYear 2025 3)
          (Nat.iter 20 count_message
             (mkSubscriber (mkUser "alice" (mkUsage 0 0 0)) "free" (mkMonthOfYear 2025 3))))
   = None
   ↔ messagesThisMonth
       (usage (subscriber
                 (mkSubscriber (mkUser "alice" (mkUsage 0 0 0)) "free"
                    (mkMonthOfYear 2025 3))))
     + Z.of_nat 20 < 20) ∧
  (20 = 20 ∨ 20 = 100 ∨ 20 = 1000) ∧
  usage_saves
    (calls (updateUsage
              (subscriber (mkSubscriber (mkUser "alice" (mkUsage 0 0 0)) "free"
                             (mkMonthOfYear 2025 3)))
              (Resolves tt)))
  = [subscriber (count_message
                   (mkSubscriber (mkUser "alice" (mkUsage 0 0 0)) "free"
                      (mkMonthOfYear 2025 3)))] ∧
  (∀ err,
     usage_saves
       (calls (updateUsage
                 (subscriber (mkSubscriber (mkUser "alice" (mkUsage 0 0 0)) "free"
                                (mkMonthOfYear 2025 3)))
                 (Rejects err))) = []).
Proof.
  apply (monthly_quota (mkMonthOfYear 2025 3)
           (mkSubscriber (mkUser "alice" (mkUsage 0 0 0)) "free" (mkMonthOfYear 2025 3))
           20 20); reflexivity.
Defined.

(** ** Failed logins *)

(** X15.  Counting from a reset document, the first four failed logins do
    not lock the account and the fifth locks it for exactly two hours from
    that attempt.  A further failure during the lock is counted but does
    not extend it; one at the very instant the lock ends locks the account
    for another two hours; the first one after that instant removes the
    lock and restarts the count at 1. *)
Theorem fifth_failed_login_locks (times : list Z) (fifth later : Z) (this : Security) :
  length times = 4%nat →
  (∀ k, (k ≤ 4)%nat →
     failed_logins (take k times) (resetLoginAttempts this)
     = {| loginAttempts := Z.of_nat k; lockUntil := None |}) ∧
  failed_logins (times ++ [fifth]) (resetLoginAttempts this)
    = {| loginAttempts := 5; lockUntil := Some (fifth + 7200000) |} ∧
  (∀ now, isLocked now (failed_logins (times ++ [fifth]) (resetLoginAttempts this)) = true
          ↔ now < fifth + 7200000) ∧
  (later < fifth + 7200000 →
   failed_logins (times ++ [fifth; later]) (resetLoginAttempts this)
   = {| loginAttempts := 6; lockUntil := Some (fifth + 7200000) |}) ∧
  (later = fifth + 7200000 →
   failed_logins (times ++ [fifth; later]) (resetLoginAttempts this)
   = {| loginAttempts := 6; lockUntil := Some (later + 7200000) |}) ∧
  (fifth + 7200000 < later →
   failed_logins (times ++ [fifth; later]) (resetLoginAttempts this)
   = {| loginAttempts := 1; lockUntil := None |}).
Proof.
  intros Hlen.
  destruct times as [|t1 [|t2 [|t3 [|t4 [|t5 rest]]]]]; try discriminate Hlen.
  split; [|split; [|split; [|split; [|split]]]].
  - intros k Hk.
    destruct k as [|[|[|[|[|k]]]]]; try lia; reflexivity.
  - reflexivity.
  - intros now. cbn. apply Z.ltb_lt.
  - intros Hlater.
    change (incLoginAttempts later {| loginAttempts := 5;
                                      lockUntil := Some (fifth + 7200000) |} = 
            {| loginAttempts := 6; lockUntil := Some (fifth + 7200000) |}).
    unfold incLoginAttempts, isLocked. cbn [lockUntil loginAttempts].
    destruct (Z.ltb_spec (fifth + 7200000) later); [lia|].
    destruct (Z.ltb_spec later (fifth + 7200000)); [|lia].
    by rewrite andb_false_r.
  - intros Hlater.
    change (incLoginAttempts later {| loginAttempts := 5;
                                      lockUntil := Some (fifth + 7200000) |} = 
            {| loginAttempts := 6; lockUntil := Some (later + 7200000) |}).
    unfold incLoginAttempts, isLocked. cbn [lockUntil loginAttempts].
    destruct (Z.ltb_spec (fifth + 7200000) later); [lia|].
    destruct (Z.ltb_spec later (fifth + 7200000)); [lia|]. reflexivity.
  - intros Hlater.
    change (incLoginAttempts later {| loginAttempts := 5;
                                      lockUntil := Some (fifth + 7200000) |} = 
            {| loginAttempts := 1; lockUntil := None |}).
    unfold incLoginAttempts. cbn [lockUntil loginAttempts].
    destruct (Z.ltb_spec (fifth + 7200000) later); [done|lia].
Qed.

Lemma fifth_failed_login_locks_witness :
  failed_logins ([1000; 2000; 3000; 4000] ++ [5000]) (resetLoginAttempts (mkSecurity 7 None))
  = {| loginAttempts := 5; lockUntil := Some (5000 + 7200000) |}.
Proof.
  apply (fifth_failed_login_locks [1000; 2000; 3000; 4000] 5000 6000 (mkSecurity 7 None)).
  reflexivity.
Defined.

(** ** Authentication *)

Lemma truthy_Some s t : truthy s = Some t → s = Some t ∧ t ≠ "".
Proof.
  destruct s as [u|]; simpl; [|done].
  destruct (String.eqb_spec u ""); [done|]. by intros [= <-].
Qed.

(** X16.  Neither middleware lets anyone through without a token that
    verifies to the id of an existing, active user: a socket is accepted,
    and a request passed on, only with that user attached.  Every refusal
    of a socket is an error whose message starts with "Authentication
    error", and every refusal of a request is a 401. *)
Theorem authentication_is_sound
    (verify : string → Outcome string) (findById : string → Outcome (option Account))
    (own_token authorization : option string) :
  (∀ user,
     authenticate_socket verify findById own_token authorization = Accepted user
     ∨ requireAuth verify findById own_token authorization = inr user →
     ∃ token id,
       presented_token own_token authorization = Some token ∧ token ≠ "" ∧
       verify token = Resolves id ∧ findById id = Resolves (Some user) ∧
       isActive user = true) ∧
  (∀ message,
     authenticate_socket verify findById own_token authorization = Refused message →
     String.prefix "Authentication error" message = true) ∧
  (∀ status message,
     requireAuth verify findById own_token authorization = inl (status, message) →
     status = 401).
Proof.
  split; [|split].
  - intros user Haccepted. unfold authenticate_socket, requireAuth in Haccepted.
    destruct (presented_token own_token authorization) as [token|] eqn:Htoken;
      [|by destruct Haccepted].
    assert (token ≠ "") as Hne.
    { unfold presented_token in Htoken.
      destruct (truthy own_token) as [t|] eqn:Hown.
      - injection Htoken as <-. by apply truthy_Some in Hown as [_ ?].
      - by apply truthy_Some in Htoken as [_ ?]. }
    destruct (verify token) as [id|e1] eqn:Hverify; [|by destruct Haccepted].
    destruct (findById id) as [[found|]|e2] eqn:Hfind; [|by destruct Haccepted..].
    destruct (isActive found) eqn:Hactive; [|by destruct Haccepted].
    assert (found = user) as -> by (destruct Haccepted as [[= ->]|[= ->]]; done).
    by exists token, id.
  - intros message. unfold authenticate_socket.
    destruct (presented_token own_token authorization) as [token|];
      [|by intros [= <-]].
    destruct (verify token) as [id|e1]; [|by intros [= <-]].
    destruct (findById id) as [[found|]|e2]; [|by intros [= <-]..].
    destruct (isActive found); [done|by intros [= <-]].
  - intros status message. unfold requireAuth.
    destruct (presented_token own_token authorization) as [token|];
      [|by intros [= <- _]].
    destruct (verify token) as [id|e1]; [|by intros [= <- _]].
    destruct (findById id) as [[found|]|e2]; [|by intros [= <- _]..].
    destruct (isActive found); [done|by intros [= <- _]].
Qed.

Lemma authentication_is_sound_witness :
  ∃ token id,
    presented_token None (Some "Bearer t-alice") = Some token ∧ token ≠ "" ∧
    (λ t, if String.eqb t "t-alice" then Resolves "alice" else Rejects "jwt malformed")
      token = Resolves id ∧
    (λ id, Resolves (if String.eqb id "alice" then Some (mkAccount "alice" true) else None))
      id = Resolves (Some (mkAccount "alice" true)) ∧
    isActive (mkAccount "alice" true) = true.
Proof.
  apply (proj1 (authentication_is_sound
                  (λ t, if String.eqb t "t-alice" then Resolves "alice"
                        else Rejects "jwt malformed")
                  (λ id, Resolves (if String.eqb id "alice"
                                   then Some (mkAccount "alice" true) else None))
                  None (Some "Bearer t-alice"))
           (mkAccount "alice" true)).
  left. reflexivity.
Defined.

Lemma prefix_append (a b : string) : String.prefix a (a +:+ b) = true.
Proof.
  induction a as [|x a IH]; [by destruct b|].
  rewrite append_cons. simpl. by destruct (Ascii.ascii_dec x x).
Qed.

Lemma substring_append (a b : string) :
  String.substring (String.length a) (String.length (a +:+ b) - String.length a) (a +:+ b)
  = b.
Proof.
  induction a as [|x a IH].
  - simpl. rewrite Nat.sub_0_r. apply substring_0_all. done.
  - rewrite append_cons. simpl. exact IH.
Qed.

Lemma prefix_split (a s : string) :
  String.prefix a s = true → ∃ rest, s = a +:+ rest.
Proof.
  revert s. induction a as [|x a IH]; intros s Hp.
  - by exists s.
  - destruct s as [|y s]; [done|]. simpl in Hp.
    destruct (Ascii.ascii_dec x y) as [->|]; [|done].
    destruct (IH s Hp) as [rest ->]. by exists rest.
Qed.

Lemma replace_first_cons (pattern replacement : string) c (s : string) :
  replace_first pattern replacement (String c s)
  = if String.prefix pattern (String c s)
    then replacement
           +:+ String.substring (String.length pattern)
                 (String.length (String c s) - String.length pattern) (String c s)
    else String c (replace_first pattern replacement s).
Proof. reflexivity. Qed.

Lemma replace_first_at_start (pattern rest : string) :
  replace_first pattern "" (pattern +:+ rest) = rest.
Proof.
  destruct (pattern +:+ rest) as [|c s] eqn:Heq.
  - destruct pattern; [|done]. by destruct rest.
  - rewrite replace_first_cons, <- Heq, prefix_append. apply substring_append.
Qed.

Lemma replace_first_absent (pattern s : string) :
  (∀ before after, s ≠ before +:+ pattern +:+ after) →
  replace_first pattern "" s = s.
Proof.
  induction s as [|c s IH]; intros Habsent.
  - destruct pattern; [|reflexivity]. by destruct (Habsent "" "").
  - rewrite replace_first_cons.
    destruct (String.prefix pattern (String c s)) eqn:Hp.
    + destruct (prefix_split _ _ Hp) as [rest Hrest].
      by destruct (Habsent "" rest).
    + f_equal. apply IH. intros before after ->.
      by destruct (Habsent (String c before) after).
Qed.

(** X17.  The token a middleware verifies: the socket's [auth.token] (the
    request's cookie) when it is a non-empty string, whatever the header
    says; otherwise the Authorization header with its first "Bearer "
    removed, so that "Bearer t" gives t and a header without "Bearer " is
    taken whole; a missing or empty result counts as no token. *)
Theorem presented_token_extraction (own_token authorization : string) :
  (own_token ≠ "" →
   presented_token (Some own_token) (Some authorization) = Some own_token) ∧
  presented_token None (Some ("Bearer " +:+ authorization)) = truthy (Some authorization) ∧
  presented_token (Some "") (Some ("Bearer " +:+ authorization))
    = truthy (Some authorization) ∧
  ((∀ before after, authorization ≠ before +:+ "Bearer " +:+ after) →
   presented_token None (Some authorization) = truthy (Some authorization)) ∧
  presented_token None None = None.
Proof.
  assert (Hbearer : replace_first "Bearer " "" ("Bearer " +:+ authorization)
                    = authorization).
  { apply replace_first_at_start. }
  split; [|split; [|split; [|split]]].
  - intros Hne. unfold presented_token. simpl.
    by destruct (String.eqb_spec own_token "").
  - unfold presented_token. cbn [truthy fmap option_fmap option_map]. by rewrite Hbearer.
  - unfold presented_token. cbn [truthy fmap option_fmap option_map String.eqb].
    by rewrite Hbearer.
  - intros Habsent. unfold presented_token. cbn [truthy fmap option_fmap option_map].
    by rewrite replace_first_absent.
  - reflexivity.
Qed.

Lemma presented_token_extraction_witness :
  presented_token (Some "t-cookie") (Some "Bearer t-header") = Some "t-cookie".
Proof.
  apply (presented_token_extraction "t-cookie" "Bearer t-header"). discriminate.
Defined.

(** ** Pagination *)

(** X18.  For a positive limit and a non-negative count, [pages] is the
    least number of pages that hold all conversations, and [hasNext] is
    true exactly on the pages before the last; [hasPrev] is true exactly
    after the first page.  A missing, unparsable or zero [page] is 1, and
    such a [limit] is 20. *)
Theorem pagination_is_consistent (page_query limit_query : option Z) (total_count : Z) :
  0 < limit (pagination page_query limit_query total_count) →
  0 ≤ total_count →
  let p := pagination page_query limit_query total_count in
  (total p ≤ pages p * limit p < total p + limit p) ∧
  (hasNext p = true ↔ page p < pages p) ∧
  (hasPrev p = true ↔ 1 < page p) ∧
  (page_query = None ∨ page_query = Some 0 → page p = 1) ∧
  (limit_query = None ∨ limit_query = Some 0 → limit p = 20).
Proof.
  cbv zeta. unfold pagination.
  cbn [page limit total pages hasNext hasPrev].
  set (pg := or_number page_query 1). set (lim := or_number limit_query 20).
  intros Hlim Htotal.
  pose proof (Z.div_mod (- total_count) lim ltac:(lia)) as Hdiv.
  pose proof (Z.mod_pos_bound (- total_count) lim Hlim) as Hmod.
  set (q := (- total_count) / lim) in *.
  split; [nia|]. split; [|split; [|split]].
  - rewrite Z.ltb_lt. split; intros; nia.
  - apply Z.ltb_lt.
  - subst pg. intros [-> | ->]; reflexivity.
  - subst lim. intros [-> | ->]; reflexivity.
Qed.

Lemma pagination_is_consistent_witness :
  (total (pagination (Some 2) None 45)
   ≤ pages (pagination (Some 2) None 45) * limit (pagination (Some 2) None 45)
   < total (pagination (Some 2) None 45) + limit (pagination (Some 2) None 45)) ∧
  (hasNext (pagination (Some 2) None 45) = true
   ↔ page (pagination (Some 2) None 45) < pages (pagination (Some 2) None 45)) ∧
  (hasPrev (pagination (Some 2) None 45) = true
   ↔ 1 < page (pagination (Some 2) None 45)) ∧
  (Some 2 = None ∨ Some 2 = Some 0 → page (pagination (Some 2) None 45) = 1) ∧
  ((None : option Z) = None ∨ (None : option Z) = Some 0 →
   limit (pagination (Some 2) None 45) = 20).
Proof.
  apply (pagination_is_consistent (Some 2) None 45); [reflexivity|lia].
Defined.

(** ** A failed generation on the route *)

Lemma observed_post_catch_member rooms m req conversation env err :
  m ∈ members rooms (conversation_room (conv_id conversation)) →
  observed rooms m (calls (post_catch req conversation env err))
  = [("ai-stream-error", stream_error_payload conversation "Failed to generate response");
     ("ai-typing-stop", conversation_only_payload conversation)].
Proof.
  intros Hmem. rewrite post_catch_calls.
  destruct (post_save_error_message env) as [[]|e]; unfold observed; simpl;
    by rewrite !decide_True.
Qed.

Lemma persisted_post_catch req conversation env err :
  post_save_error_message env = Resolves tt →
  persisted (calls (post_catch req conversation env err))
  = [new_message (error_message_data env err) conversation].
Proof. intros Hsave. rewrite post_catch_calls, Hsave. reflexivity. Qed.

(** X19.  When the provider fails on the route, at the call or in the
    middle of the stream, every member of the room receives
    [ai-stream-error] and then [ai-typing-stop] as the last two events of
    the run.  If the error message can be written, the conversation gets,
    after the user message, one assistant message with the fixed apology
    as content, no tokens and the provider's error recorded; the
    increments received before the failure are not written. *)
Theorem route_records_failed_generation
    (rooms : gmap string (gset string)) (m : string) (req : Request) (env : PostEnv)
    (conversation : Conversation) (err : string) :
  post_findOne env = Resolves (Some conversation) →
  post_save_user_message env = Resolves tt →
  post_create env = Rejects err
  ∨ (∃ cs, post_create env = Resolves {| chunks := cs; throws := Some err |}) →
  (m ∈ members rooms (conversation_room (conv_id conversation)) →
   ∃ before,
     event_names rooms m (calls (post_message req env))
     = before ++ ["ai-stream-error"; "ai-typing-stop"]) ∧
  (post_save_error_message env = Resolves tt →
   ∃ user failure,
     persisted (calls (post_message req env)) = [user; failure] ∧
     (role user, content user) = ("user", body_message req) ∧
     (role failure, content failure, tokens failure, error failure)
       = ("assistant", error_message_text, 0, Some err)).
Proof.
  intros Hfind Hsave Hfail.
  rewrite post_message_calls, Hfind, Hsave. split.
  - intros Hmem. unfold event_names. rewrite !observed_app.
    destruct Hfail as [-> | [cs ->]]; cbn [throws chunks].
    + rewrite observed_post_catch_member by done.
      rewrite fmap_app. by eexists.
    + rewrite observed_app, observed_post_catch_member by done.
      rewrite !fmap_app, !app_assoc. by eexists.
  - intros Hwrite. unfold persisted. rewrite !omap_app. fold persisted.
    destruct Hfail as [-> | [cs ->]]; cbn [throws chunks].
    + rewrite persisted_post_catch by done. eexists _, _. split; [reflexivity|]. done.
    + unfold persisted. rewrite omap_app, omap_post_for_await by done. fold persisted.
      rewrite persisted_post_catch by done. eexists _, _. split; [reflexivity|]. done.
Qed.

Lemma route_records_failed_generation_witness :
  ("s-bob" ∈ members rooms_joined (conversation_room (conv_id conv1)) →
   ∃ before,
     event_names rooms_joined "s-bob" (calls (post_message alice_request post_provider_fails))
     = before ++ ["ai-stream-error"; "ai-typing-stop"]) ∧
  (post_save_error_message post_provider_fails = Resolves tt →
   ∃ user failure,
     persisted (calls (post_message alice_request post_provider_fails)) = [user; failure] ∧
     (role user, content user) = ("user", body_message alice_request) ∧
     (role failure, content failure, tokens failure, error failure)
       = ("assistant", error_message_text, 0, Some "socket hang up")).
Proof.
  apply (route_records_failed_generation rooms_joined "s-bob" alice_request
           post_provider_fails conv1 "socket hang up"); try reflexivity.
  right. exists [Some "Hi"; Some " the"]. reflexivity.
Defined.
